(** * Resilience layer of the campaign-analytics server

    A shallow embedding of the two in-process primitives of the server:

    - [server/circuit-breaker.ts]: the [CircuitBreaker] class, the shared
      instance [modelApiCircuitBreaker] and the fallback wrapper
      [callExternalModelApi];
    - [server/cache.ts]: the [InMemoryCache] class.

    Conventions of the embedding.

    - JavaScript numbers that the code uses as counters, thresholds,
      durations and epoch milliseconds are integers of [Z]; the rounding of
      doubles above 2^53 is not modelled.
    - [Date.now()] is an argument of every function whose source reads the
      clock, one argument per read.
    - A mutable object is a record that the function takes and returns.
    - A thrown value is a [JsError]; a function that can throw returns a
      [Completion]. *)

From Stdlib Require Import ZArith String List Lia Bool.
From stdpp Require Import gmap strings list fin_maps.
Import ListNotations.

Local Open Scope string_scope.
Local Open Scope Z_scope.

(** ** JavaScript values and errors *)

(** The values the cache stores ([CacheEntry<any>]).  [get] answers [null]
    for a missing key, so [null] has to be a value of its own.  Objects and
    arrays are held by reference. *)
Inductive JsValue : Type :=
| JsUndefined
| JsNull
| JsBoolean (b : bool)
| JsNumber (n : Z)
| JsString (s : string)
| JsObject (ref : nat).

(** An [Error] object: its [name] and its [message]. *)
Record JsError : Type := mkError { name : string; message : string }.

(** [new Error(msg)] *)
Definition Error (msg : string) : JsError := mkError "Error" msg.

(** How a call ends: with a value, or by throwing. *)
Inductive Completion (A : Type) : Type :=
| Normal (a : A)
| Throw (e : JsError).
Arguments Normal {A} a.
Arguments Throw {A} e.

(** ** server/circuit-breaker.ts *)

Module Breaker.

Inductive CircuitState : Type := CLOSED | OPEN | HALF_OPEN.

Record CircuitBreakerOptions : Type := {
  failureThreshold : Z;
  successThreshold : Z;
  timeout : Z;
  resetTimeout : Z
}.

(** [Partial<CircuitBreakerOptions>]: every field may be missing. *)
Record PartialOptions : Type := {
  p_failureThreshold : option Z;
  p_successThreshold : option Z;
  p_timeout : option Z;
  p_resetTimeout : option Z
}.

Record CircuitStats : Type := {
  failures : Z;
  successes : Z;
  lastFailureTime : option Z;
  state : CircuitState
}.

Record CircuitBreaker : Type := {
  options : CircuitBreakerOptions;
  stats : CircuitStats
}.

(** [x || d] on an optional number: [undefined] and [0] are falsy. *)
Definition or_default (x : option Z) (d : Z) : Z :=
  match x with
  | Some v => if v =? 0 then d else v
  | None => d
  end.

(** [!x] on a [number | null]: [null] and [0] are falsy. *)
Definition falsy (x : option Z) : bool :=
  match x with
  | Some v => v =? 0
  | None => true
  end.

Definition constructor (o : PartialOptions) : CircuitBreaker :=
  {| options := {| failureThreshold := or_default (p_failureThreshold o) 5;
                   successThreshold := or_default (p_successThreshold o) 2;
                   timeout := or_default (p_timeout o) 30000;
                   resetTimeout := or_default (p_resetTimeout o) 60000 |};
     stats := {| failures := 0;
                 successes := 0;
                 lastFailureTime := None;
                 state := CLOSED |} |}.

Definition CircuitState_eqb (a b : CircuitState) : bool :=
  match a, b with
  | CLOSED, CLOSED | OPEN, OPEN | HALF_OPEN, HALF_OPEN => true
  | _, _ => false
  end.

(** Assignments to one field of [this.stats]. *)
Definition set_state (s : CircuitState) (cb : CircuitBreaker) : CircuitBreaker :=
  {| options := options cb;
     stats := {| failures := failures (stats cb);
                 successes := successes (stats cb);
                 lastFailureTime := lastFailureTime (stats cb);
                 state := s |} |}.

Definition set_failures (n : Z) (cb : CircuitBreaker) : CircuitBreaker :=
  {| options := options cb;
     stats := {| failures := n;
                 successes := successes (stats cb);
                 lastFailureTime := lastFailureTime (stats cb);
                 state := state (stats cb) |} |}.

Definition set_successes (n : Z) (cb : CircuitBreaker) : CircuitBreaker :=
  {| options := options cb;
     stats := {| failures := failures (stats cb);
                 successes := n;
                 lastFailureTime := lastFailureTime (stats cb);
                 state := state (stats cb) |} |}.

Definition set_lastFailureTime (t : option Z) (cb : CircuitBreaker) : CircuitBreaker :=
  {| options := options cb;
     stats := {| failures := failures (stats cb);
                 successes := successes (stats cb);
                 lastFailureTime := t;
                 state := state (stats cb) |} |}.

Definition reset (cb : CircuitBreaker) : CircuitBreaker :=
  {| options := options cb;
     stats := {| failures := 0;
                 successes := 0;
                 lastFailureTime := None;
                 state := CLOSED |} |}.

Definition shouldAttemptReset (now : Z) (cb : CircuitBreaker) : bool :=
  if falsy (lastFailureTime (stats cb)) then true
  else
    match lastFailureTime (stats cb) with
    | Some t => resetTimeout (options cb) <=? now - t
    | None => true
    end.

Definition onSuccess (cb : CircuitBreaker) : CircuitBreaker :=
  if CircuitState_eqb (state (stats cb)) HALF_OPEN then
    let cb1 := set_successes (successes (stats cb) + 1) cb in
    if successThreshold (options cb1) <=? successes (stats cb1)
    then reset cb1
    else cb1
  else set_failures 0 cb.

Definition onFailure (now : Z) (cb : CircuitBreaker) : CircuitBreaker :=
  let cb1 := set_failures (failures (stats cb) + 1) cb in
  let cb2 := set_lastFailureTime (Some now) cb1 in
  if CircuitState_eqb (state (stats cb2)) HALF_OPEN then
    set_successes 0 (set_state OPEN cb2)
  else if failureThreshold (options cb2) <=? failures (stats cb2) then
    set_state OPEN cb2
  else cb2.

Definition getState (cb : CircuitBreaker) : CircuitState := state (stats cb).

Definition getStats (cb : CircuitBreaker) : CircuitStats := stats cb.

Definition forceOpen (now : Z) (cb : CircuitBreaker) : CircuitBreaker :=
  set_lastFailureTime (Some now) (set_state OPEN cb).

Definition forceClose (cb : CircuitBreaker) : CircuitBreaker := reset cb.

(** *** The timeout race of [withTimeout]

    [withTimeout] builds a promise, arms a timer and calls [fn].  Either
    [fn] throws before it returns a promise, or what happens next is decided
    by the host: the timer callback runs, or the promise of [fn] is
    fulfilled or rejected.  These are the [Event]s; the handlers below are
    the three callbacks of the source and the executor of the promise,
    which turns a throw of [fn] into a rejection. *)

Inductive Settlement (T : Type) : Type :=
| Fulfilled (v : T)
| Rejected (e : JsError).
Arguments Fulfilled {T} v.
Arguments Rejected {T} e.

Inductive TimerStatus : Type := Armed | Fired | Cleared.

(** The promise returned by [withTimeout] and the timer it arms. *)
Record Race (T : Type) : Type := {
  settled : option (Settlement T);
  timer : TimerStatus;
  delay : Z
}.
Arguments settled {T} r.
Arguments timer {T} r.
Arguments delay {T} r.

Inductive Event (T : Type) : Type :=
| TimerFires
| FnFulfils (result : T)
| FnRejects (error : JsError)
| FnThrows (error : JsError).
Arguments TimerFires {T}.
Arguments FnFulfils {T} result.
Arguments FnRejects {T} error.
Arguments FnThrows {T} error.

Definition openError : JsError := Error "Circuit breaker is OPEN - service unavailable".
Definition timeoutError : JsError := Error "Circuit breaker timeout".

Section Execute.
Context {T : Type}.

(** [resolve] and [reject] of a promise act once. *)
Definition resolve (v : T) (r : Race T) : Race T :=
  match settled r with
  | None => {| settled := Some (Fulfilled v); timer := timer r; delay := delay r |}
  | Some _ => r
  end.

Definition reject (e : JsError) (r : Race T) : Race T :=
  match settled r with
  | None => {| settled := Some (Rejected e); timer := timer r; delay := delay r |}
  | Some _ => r
  end.

Definition clearTimeout (r : Race T) : Race T :=
  {| settled := settled r;
     timer := match timer r with Armed => Cleared | s => s end;
     delay := delay r |}.

(** [setTimeout(..., this.options.timeout)] followed by [fn()]. *)
Definition withTimeout_start (cb : CircuitBreaker) : Race T :=
  {| settled := None; timer := Armed; delay := timeout (options cb) |}.

(** The host runs the callback of a timer only while it is armed. *)
Definition withTimeout_on (ev : Event T) (r : Race T) : Race T :=
  match ev with
  | TimerFires =>
      match timer r with
      | Armed =>
          reject timeoutError
            {| settled := settled r; timer := Fired; delay := delay r |}
      | _ => r
      end
  | FnFulfils result => resolve result (clearTimeout r)
  | FnRejects error => reject error (clearTimeout r)
  | FnThrows error => reject error r
  end.

(** What [fn] and the host do once [fn] is called: the events in the order
    the host delivers them, each with the clock reading at that moment.
    An operation fails by rejecting its promise or by throwing before it
    returns one; the throw, if any, is the first event.
    There is a first event, since an armed timer fires unless it is cleared;
    whatever follows is arbitrary. *)
Record Operation : Type := {
  first : Z * Event T;
  later : list (Z * Event T)
}.

(** One call of [execute] past its OPEN check: the breaker, the race, and what
    [execute] has returned or thrown so far. *)
Record Call : Type := {
  breaker : CircuitBreaker;
  race : Race T;
  returned : option (Settlement T)
}.

(** [await this.withTimeout(fn)] resumes when the promise settles:
    the [try] branch runs [onSuccess], the [catch] branch [onFailure]. *)
Definition deliver (c : Call) (ev : Z * Event T) : Call :=
  let r' := withTimeout_on (snd ev) (race c) in
  match settled (race c), settled r' with
  | None, Some (Fulfilled v) =>
      {| breaker := onSuccess (breaker c); race := r';
         returned := Some (Fulfilled v) |}
  | None, Some (Rejected e) =>
      {| breaker := onFailure (fst ev) (breaker c); race := r';
         returned := Some (Rejected e) |}
  | _, _ =>
      {| breaker := breaker c; race := r'; returned := returned c |}
  end.

Definition attempt (fn : Operation) (cb : CircuitBreaker) : Call :=
  fold_left deliver (later fn)
    (deliver {| breaker := cb; race := withTimeout_start cb; returned := None |}
             (first fn)).

(** What a caller and a spy on [fn] observe of one [execute]. *)
Record Outcome : Type := {
  result : option (Settlement T);
  after : CircuitBreaker;
  invocations : nat;
  raceAfter : option (Race T)
}.

Definition ran (c : Call) : Outcome :=
  {| result := returned c;
     after := breaker c;
     invocations := 1;
     raceAfter := Some (race c) |}.

Definition execute (now : Z) (fn : Operation) (cb : CircuitBreaker) : Outcome :=
  if CircuitState_eqb (state (stats cb)) OPEN then
    if shouldAttemptReset now cb then
      ran (attempt fn (set_state HALF_OPEN cb))
    else
      {| result := Some (Rejected openError);
         after := cb;
         invocations := 0;
         raceAfter := None |}
  else ran (attempt fn cb).

(** The breaker as the OPEN check of [execute] leaves it for a call it
    lets through. *)
Definition entered (cb : CircuitBreaker) : CircuitBreaker :=
  if CircuitState_eqb (state (stats cb)) OPEN then set_state HALF_OPEN cb else cb.

(** Calls made one after the other, each awaited before the next. *)
Definition run_calls (calls : list (Z * Operation)) (cb : CircuitBreaker)
  : CircuitBreaker :=
  fold_left (fun b c => after (execute (fst c) (snd c) b)) calls cb.

(** The outcome of the operation as the race sees it. *)
Definition fails (fn : Operation) : bool :=
  match snd (first fn) with
  | FnFulfils _ => false
  | _ => true
  end.

Definition succeeds (fn : Operation) : bool := negb (fails fn).

End Execute.
Arguments Operation T : clear implicits.
Arguments Call T : clear implicits.
Arguments Outcome T : clear implicits.

(** The instance guarding the external model API. *)
Definition modelApiCircuitBreaker : CircuitBreaker :=
  constructor {| p_failureThreshold := Some 3;
                 p_successThreshold := Some 2;
                 p_timeout := Some 10000;
                 p_resetTimeout := Some 30000 |}.

(** [callExternalModelApi] is an async function: how its promise settles
    ([None] while it is pending), the error written to the console, and the
    shared breaker, here the argument [cb]. *)
Record Invocation (T : Type) : Type := {
  completion : option (Settlement T);
  logged : option JsError;
  shared : CircuitBreaker
}.
Arguments completion {T} i.
Arguments logged {T} i.
Arguments shared {T} i.

Definition callExternalModelApi {T : Type} (now : Z) (apiCall : Operation T)
    (fallback : T) (cb : CircuitBreaker) : Invocation T :=
  let o := execute now apiCall cb in
  match result o with
  | Some (Fulfilled v) =>
      {| completion := Some (Fulfilled v); logged := None; shared := after o |}
  | Some (Rejected error) =>
      {| completion := Some (Fulfilled fallback); logged := Some error;
         shared := after o |}
  | None => {| completion := None; logged := None; shared := after o |}
  end.

End Breaker.

(** ** server/cache.ts *)

Module Cache.

Record CacheEntry : Type := {
  data : JsValue;
  expiresAt : Z
}.

(** The [Map] of the class, and the handle of its sweep timer: the period
    of the interval while it is armed, [None] once it is cleared.  The order
    in which a [Map] lists its keys is not modelled. *)
Record InMemoryCache : Type := {
  cache : gmap string CacheEntry;
  cleanupInterval : option Z
}.

Definition constructor (cleanupIntervalMs : option Z) : InMemoryCache :=
  {| cache := ∅;
     cleanupInterval := Some (default 60000 cleanupIntervalMs) |}.

(** [this.cache] replaced, the timer handle kept. *)
Definition with_cache (m : gmap string CacheEntry) (c : InMemoryCache)
  : InMemoryCache :=
  {| cache := m; cleanupInterval := cleanupInterval c |}.

Definition set (key : string) (data : JsValue) (ttlSeconds : option Z)
    (now : Z) (c : InMemoryCache) : InMemoryCache :=
  let expiresAt := now + default 300 ttlSeconds * 1000 in
  with_cache (<[key := {| data := data; expiresAt := expiresAt |}]> (cache c)) c.

Definition get (key : string) (now : Z) (c : InMemoryCache)
  : JsValue * InMemoryCache :=
  match cache c !! key with
  | None => (JsNull, c)
  | Some entry =>
      if expiresAt entry <? now
      then (JsNull, with_cache (base.delete key (cache c)) c)
      else (data entry, c)
  end.

Definition has (key : string) (now : Z) (c : InMemoryCache)
  : bool * InMemoryCache :=
  match cache c !! key with
  | None => (false, c)
  | Some entry =>
      if expiresAt entry <? now
      then (false, with_cache (base.delete key (cache c)) c)
      else (true, c)
  end.

(** [Map.prototype.delete] answers whether the key was there. *)
Definition delete (key : string) (c : InMemoryCache) : bool * InMemoryCache :=
  (bool_decide (is_Some (cache c !! key)),
   with_cache (base.delete key (cache c)) c).

(** [Array.from(this.cache.keys())] *)
Definition keys_of (m : gmap string CacheEntry) : list string :=
  (map_to_list m).*1.

Section Pattern.
(** The regular-expression engine of the host: [new RegExp(pattern)], which
    throws on a malformed pattern, and [regex.test(s)].  A regex built
    without flags keeps no state between tests. *)
Context {RegExp : Type}.
Context (new_RegExp : string -> Completion RegExp).
Context (test : RegExp -> string -> bool).

(** The [for] loop over the snapshot [keys]. *)
Fixpoint invalidate_loop (regex : RegExp) (keys : list string)
    (m : gmap string CacheEntry) (count : nat)
  : nat * gmap string CacheEntry :=
  match keys with
  | [] => (count, m)
  | k :: rest =>
      if test regex k
      then invalidate_loop regex rest (base.delete k m) (S count)
      else invalidate_loop regex rest m count
  end.

Definition invalidatePattern (pattern : string) (c : InMemoryCache)
  : Completion nat * InMemoryCache :=
  match new_RegExp pattern with
  | Throw e => (Throw e, c)
  | Normal regex =>
      let keys := keys_of (cache c) in
      let '(count, m) := invalidate_loop regex keys (cache c) 0%nat in
      (Normal count, with_cache m c)
  end.

End Pattern.

Definition clear (c : InMemoryCache) : InMemoryCache := with_cache ∅ c.

(** The sweep run by the interval timer. *)
Definition cleanup (now : Z) (c : InMemoryCache) : InMemoryCache :=
  let entries := map_to_list (cache c) in
  with_cache
    (fold_left
       (fun m kv => if expiresAt (snd kv) <? now then base.delete (fst kv) m else m)
       entries (cache c))
    c.

Record CacheStats : Type := {
  st_size : nat;
  st_keys : list string
}.

Definition stats (c : InMemoryCache) : CacheStats :=
  {| st_size := size (cache c); st_keys := keys_of (cache c) |}.

Definition destroy (c : InMemoryCache) : InMemoryCache :=
  let c1 :=
    match cleanupInterval c with
    | Some _ => {| cache := cache c; cleanupInterval := None |}
    | None => c
    end in
  with_cache ∅ c1.

(** The public methods as one type of calls, and what each returns. *)
Inductive Request : Type :=
| Set_ (key : string) (data : JsValue) (ttlSeconds : option Z)
| Get (key : string)
| Has (key : string)
| Delete (key : string)
| InvalidatePattern (pattern : string)
| Clear
| Stats
| Destroy.

Inductive Response : Type :=
| Void
| Value (v : JsValue)
| Boolean (b : bool)
| Count (n : nat)
| StatsOf (s : CacheStats).

Section Perform.
Context {RegExp : Type}.
Context (new_RegExp : string -> Completion RegExp).
Context (test : RegExp -> string -> bool).

Definition perform (now : Z) (r : Request) (c : InMemoryCache)
  : Completion Response * InMemoryCache :=
  match r with
  | Set_ key data ttlSeconds => (Normal Void, set key data ttlSeconds now c)
  | Get key => let '(v, c') := get key now c in (Normal (Value v), c')
  | Has key => let '(b, c') := has key now c in (Normal (Boolean b), c')
  | Delete key => let '(b, c') := delete key c in (Normal (Boolean b), c')
  | InvalidatePattern pattern =>
      match invalidatePattern new_RegExp test pattern c with
      | (Normal n, c') => (Normal (Count n), c')
      | (Throw e, c') => (Throw e, c')
      end
  | Clear => (Normal Void, clear c)
  | Stats => (Normal (StatsOf (stats c)), c)
  | Destroy => (Normal Void, destroy c)
  end.

End Perform.

End Cache.

(** ** Sample inputs *)

Module Samples.
Import Breaker.

(** The breaker of the unit tests. *)
Definition testOptions : PartialOptions :=
  {| p_failureThreshold := Some 3;
     p_successThreshold := Some 2;
     p_timeout := Some 1000;
     p_resetTimeout := Some 5000 |}.

Definition testBreaker : CircuitBreaker := Breaker.constructor testOptions.

(** [async () => 'success'], settled 2 ms after the call at [t]. *)
Definition succeedAt (t : Z) : Operation string :=
  {| first := (t + 2, FnFulfils "success"); later := [] |}.

(** [async () => { throw new Error('fail') }] *)
Definition failAt (t : Z) : Operation string :=
  {| first := (t + 2, FnRejects (Error "fail")); later := [] |}.

(** An operation that answers only after the timer has fired. *)
Definition hangAt (t : Z) : Operation string :=
  {| first := (t + 1000, TimerFires);
     later := [(t + 1500, FnFulfils "late")] |}.

(** [() => { throw new Error('boom') }]: no promise is returned. *)
Definition throwAt (t : Z) : Operation string :=
  {| first := (t, FnThrows (Error "boom")); later := [] |}.

(** The same, followed until the timer of the race has fired. *)
Definition throwThenTimer (t : Z) : Operation string :=
  {| first := (t, FnThrows (Error "boom")); later := [(t + 1000, TimerFires)] |}.

Definition openedAt (t : Z) : CircuitBreaker := forceOpen t testBreaker.

Definition halfOpen (s : Z) : CircuitBreaker :=
  set_successes s (set_state HALF_OPEN testBreaker).

(** A small regular-expression engine for the examples: a pattern without
    metacharacters matches the keys that contain it; the pattern "(" is
    malformed. *)
Definition literal_RegExp (pattern : string) : Completion string :=
  if String.eqb pattern "("
  then Throw (mkError "SyntaxError"
                "Invalid regular expression: /(/: Unterminated group")
  else Normal pattern.

Definition literal_test (regex key : string) : bool :=
  match String.index 0 regex key with
  | Some _ => true
  | None => false
  end.

(** A cache filled at clock reading 0 with the default TTL. *)
Definition filled : Cache.InMemoryCache :=
  Cache.set "campaigns:page=2" (JsNumber 2) None 0
    (Cache.set "dashboard:page=1" (JsString "d") None 0
       (Cache.set "campaigns:page=1" (JsNumber 1) None 0
          (Cache.constructor None))).

End Samples.

(** ** CACHE_KEYS and CACHE_TTL of server/cache.ts *)

Module Keys.
Import Stdlib.Strings.Ascii.

Definition DASHBOARD (params : string) : string := "dashboard:" +:+ params.
Definition CAMPAIGNS (params : string) : string := "campaigns:" +:+ params.
Definition CAMPAIGN (id : string) : string := "campaign:" +:+ id.
Definition METRICS (params : string) : string := "metrics:" +:+ params.
Definition FORECASTS (params : string) : string := "forecasts:" +:+ params.
Definition ANALYTICS (params : string) : string := "analytics:" +:+ params.
Definition KPI_SUMMARY (period start : string) : string :=
  "kpi:" +:+ period +:+ ":" +:+ start.

Definition SHORT : Z := 60.
Definition MEDIUM : Z := 300.
Definition LONG : Z := 900.
Definition VERY_LONG : Z := 3600.

(** What a key is built for: a builder of [CACHE_KEYS] with its arguments. *)
Inductive Subject : Type :=
| Dashboard (params : string)
| Campaigns (params : string)
| Campaign (id : string)
| Metrics (params : string)
| Forecasts (params : string)
| Analytics (params : string)
| KpiSummary (period start : string).

Definition key_of (s : Subject) : string :=
  match s with
  | Dashboard params => DASHBOARD params
  | Campaigns params => CAMPAIGNS params
  | Campaign id => CAMPAIGN id
  | Metrics params => METRICS params
  | Forecasts params => FORECASTS params
  | Analytics params => ANALYTICS params
  | KpiSummary period start => KPI_SUMMARY period start
  end.

Fixpoint has_colon (s : string) : bool :=
  match s with
  | EmptyString => false
  | String c rest => if Ascii.eqb c ":"%char then true else has_colon rest
  end.

(** A KPI period without a colon; the other builders take any string. *)
Definition plain_period (s : Subject) : Prop :=
  match s with
  | KpiSummary period _ => has_colon period = false
  | _ => True
  end.

End Keys.

(** ** Runs of operations *)

Module Runs.
Import Breaker.

(** What can be done to a breaker from outside. *)
Inductive Action (T : Type) : Type :=
| Execute (now : Z) (fn : Operation T)
| ForceOpen (now : Z)
| ForceClose.
Arguments Execute {T} now fn.
Arguments ForceOpen {T} now.
Arguments ForceClose {T}.

Definition act {T : Type} (cb : CircuitBreaker) (a : Action T) : CircuitBreaker :=
  match a with
  | Execute now fn => after (execute now fn cb)
  | ForceOpen now => forceOpen now cb
  | ForceClose => forceClose cb
  end.

(** Actions one after the other, each call awaited before the next. *)
Definition run_actions {T : Type} (actions : list (Action T))
    (cb : CircuitBreaker) : CircuitBreaker :=
  fold_left act actions cb.

(** An action during which the clock never reads 0: [Date.now()] counts
    the milliseconds since 1970. *)
Definition clock_nonzero {T : Type} (a : Action T) : Prop :=
  match a with
  | Execute now fn => now <> 0 /\ fst (first fn) <> 0
  | ForceOpen now => now <> 0
  | ForceClose => True
  end.

(** What holds of the counters of a breaker in use. *)
Definition counters_in_range (cb : CircuitBreaker) : Prop :=
  0 <= failures (stats cb) /\
  0 <= successes (stats cb) < successThreshold (options cb) /\
  (state (stats cb) = CLOSED ->
   successes (stats cb) = 0 /\
   failures (stats cb) < failureThreshold (options cb)) /\
  (state (stats cb) <> CLOSED -> lastFailureTime (stats cb) <> None).

Section CacheRuns.
Context {RegExp : Type}.
Context (new_RegExp : string -> Completion RegExp).
Context (test : RegExp -> string -> bool).

(** Requests one after the other, each with the clock reading of its call;
    a request that throws leaves the cache to the next one. *)
Definition perform_all (requests : list (Z * Cache.Request))
    (c : Cache.InMemoryCache) : Cache.InMemoryCache :=
  fold_left
    (fun c r => snd (Cache.perform new_RegExp test (fst r) (snd r) c))
    requests c.

End CacheRuns.

Definition is_set (r : Cache.Request) : bool :=
  match r with
  | Cache.Set_ _ _ _ => true
  | _ => false
  end.

Definition is_destroy (r : Cache.Request) : bool :=
  match r with
  | Cache.Destroy => true
  | _ => false
  end.

End Runs.

(** ** Properties of the circuit breaker *)

Module BreakerSpec.
Import Breaker.

Section Race.
Context {T : Type}.
Implicit Types (c : Call T) (r : Race T) (ev : Z * Event T) (fn : Operation T).

(** Once the promise is settled and the timer is no longer armed, the
    callbacks change nothing. *)
Lemma withTimeout_on_spent (e : Event T) r :
  settled r <> None -> timer r <> Armed -> withTimeout_on e r = r.
Proof.
  intros Hs Ht. destruct r as [s t d]; simpl in *.
  destruct s as [s|]; [|congruence].
  destruct e, t; try congruence; reflexivity.
Qed.

Lemma deliver_spent c ev :
  settled (race c) <> None -> timer (race c) <> Armed -> deliver c ev = c.
Proof.
  intros Hs Ht. unfold deliver.
  rewrite (withTimeout_on_spent (snd ev) (race c) Hs Ht).
  destruct c as [b r ret]; simpl in *.
  destruct (settled r); [reflexivity|congruence].
Qed.

Lemma deliver_all_spent (evs : list (Z * Event T)) c :
  settled (race c) <> None -> timer (race c) <> Armed ->
  fold_left deliver evs c = c.
Proof.
  intros Hs Ht. induction evs as [|ev evs IH]; simpl; [reflexivity|].
  rewrite (deliver_spent c ev Hs Ht). exact IH.
Qed.

(** Once the promise is settled, no event reaches the breaker or the
    result any more. *)
Lemma deliver_settled c ev :
  settled (race c) <> None ->
  breaker (deliver c ev) = breaker c /\
  returned (deliver c ev) = returned c /\
  settled (race (deliver c ev)) <> None.
Proof.
  intros Hs. unfold deliver.
  destruct c as [b [s t d] ret]; simpl in *.
  destruct s as [s|]; [|congruence].
  destruct ev as [at_ [|v|e|e]]; simpl; try (destruct t); simpl;
    repeat split; congruence.
Qed.

Lemma deliver_all_settled (evs : list (Z * Event T)) : forall c,
  settled (race c) <> None ->
  breaker (fold_left deliver evs c) = breaker c /\
  returned (fold_left deliver evs c) = returned c.
Proof.
  induction evs as [|ev evs IH]; intros c Hs; simpl; [auto|].
  destruct (deliver_settled c ev Hs) as (Hb & Hr & Hs').
  destruct (IH (deliver c ev) Hs') as [Hb' Hr'].
  rewrite Hb', Hr', Hb, Hr. auto.
Qed.

(** The first event settles the race; [attempt] is decided by it, but for
    the timer that a throw of [fn] leaves behind. *)
Lemma attempt_first fn cb :
  attempt fn cb =
  match first fn with
  | (t, TimerFires) =>
      {| breaker := onFailure t cb;
         race := {| settled := Some (Rejected timeoutError); timer := Fired;
                    delay := timeout (options cb) |};
         returned := Some (Rejected timeoutError) |}
  | (t, FnFulfils v) =>
      {| breaker := onSuccess cb;
         race := {| settled := Some (Fulfilled v); timer := Cleared;
                    delay := timeout (options cb) |};
         returned := Some (Fulfilled v) |}
  | (t, FnRejects e) =>
      {| breaker := onFailure t cb;
         race := {| settled := Some (Rejected e); timer := Cleared;
                    delay := timeout (options cb) |};
         returned := Some (Rejected e) |}
  | (t, FnThrows e) =>
      {| breaker := onFailure t cb;
         race := race (attempt fn cb);
         returned := Some (Rejected e) |}
  end.
Proof.
  unfold attempt. destruct fn as [[t e] evs]; simpl.
  destruct e as [|v|e|e];
    try (simpl; unfold deliver; simpl; apply deliver_all_spent; simpl;
         congruence).
  match goal with
  | |- fold_left deliver evs ?c0 = _ =>
      assert (Hc0 : c0 =
                {| breaker := onFailure t cb;
                   race := {| settled := Some (Rejected e); timer := Armed;
                              delay := timeout (options cb) |};
                   returned := Some (Rejected e) |}) by reflexivity;
      rewrite Hc0
  end.
  match goal with
  | |- fold_left deliver evs ?c1 = _ =>
      destruct (deliver_all_settled evs c1) as [Hb Hr]; [simpl; congruence|];
      destruct (fold_left deliver evs c1) as [b r ret]
  end.
  simpl in *. subst. reflexivity.
Qed.

Lemma attempt_fails fn cb :
  fails fn = true ->
  breaker (attempt fn cb) = onFailure (fst (first fn)) cb /\
  exists e, returned (attempt fn cb) = Some (Rejected e).
Proof.
  intros Hf. rewrite attempt_first. unfold fails in Hf.
  destruct (first fn) as [t e]; simpl in *.
  destruct e; try discriminate; simpl; eauto.
Qed.

Lemma attempt_succeeds fn cb :
  succeeds fn = true ->
  breaker (attempt fn cb) = onSuccess cb /\
  exists v, returned (attempt fn cb) = Some (Fulfilled v).
Proof.
  intros Hf. rewrite attempt_first. unfold succeeds, fails in Hf.
  destruct (first fn) as [t e]; simpl in *.
  destruct e; try discriminate; simpl; eauto.
Qed.

(** [execute] on a breaker that is not [OPEN] goes straight to the race. *)
Lemma execute_not_open now fn cb :
  state (stats cb) <> OPEN -> execute now fn cb = ran (attempt fn cb).
Proof.
  intros H. unfold execute. destruct (state (stats cb)); simpl; congruence.
Qed.

End Race.

(** *** The CLOSED row *)

Lemma or_default_nonzero x d : d <> 0 -> or_default x d <> 0.
Proof.
  intros Hd. unfold or_default. destruct x as [v|]; [|exact Hd].
  destruct (Z.eqb_spec v 0); congruence.
Qed.

Lemma onFailure_closed now cb :
  state (stats cb) = CLOSED ->
  options (onFailure now cb) = options cb /\
  failures (stats (onFailure now cb)) = failures (stats cb) + 1 /\
  successes (stats (onFailure now cb)) = successes (stats cb) /\
  lastFailureTime (stats (onFailure now cb)) = Some now /\
  state (stats (onFailure now cb)) =
    (if failureThreshold (options cb) <=? failures (stats cb) + 1
     then OPEN else CLOSED).
Proof.
  intros Hc. unfold onFailure; simpl. rewrite Hc; simpl.
  destruct (failureThreshold (options cb) <=? failures (stats cb) + 1);
    simpl; repeat split; assumption.
Qed.

Lemma onSuccess_closed cb :
  state (stats cb) = CLOSED ->
  onSuccess cb = set_failures 0 cb.
Proof. intros Hc. unfold onSuccess. rewrite Hc. reflexivity. Qed.

Section Streaks.
Context {T : Type}.
Implicit Types (calls : list (Z * Operation T)).

Lemma execute_closed_failure now (fn : Operation T) cb :
  state (stats cb) = CLOSED -> fails fn = true ->
  after (execute now fn cb) = onFailure (fst (first fn)) cb.
Proof.
  intros Hc Hf. rewrite execute_not_open by congruence.
  simpl. apply attempt_fails, Hf.
Qed.

Lemma run_calls_cons now (fn : Operation T) calls cb :
  run_calls ((now, fn) :: calls) cb = run_calls calls (after (execute now fn cb)).
Proof. reflexivity. Qed.

(** Failures short of the threshold leave the breaker CLOSED and are
    counted one by one. *)
Lemma closed_streak calls : forall cb,
  state (stats cb) = CLOSED ->
  Forall (fun c => fails (snd c) = true) calls ->
  failures (stats cb) + Z.of_nat (length calls) < failureThreshold (options cb) ->
  state (stats (run_calls calls cb)) = CLOSED /\
  failures (stats (run_calls calls cb)) =
    failures (stats cb) + Z.of_nat (length calls) /\
  options (run_calls calls cb) = options cb.
Proof.
  induction calls as [|[now fn] calls IH]; intros cb Hc Hall Hlt.
  - simpl. repeat split; try assumption. lia.
  - inversion Hall as [|? ? Hf Hrest]; subst. simpl in Hf.
    rewrite run_calls_cons, (execute_closed_failure now fn cb Hc Hf).
    destruct (onFailure_closed (fst (first fn)) cb Hc)
      as (Ho & Hfl & _ & _ & Hst).
    rewrite length_cons, Nat2Z.inj_succ in Hlt.
    destruct (Z.leb_spec (failureThreshold (options cb)) (failures (stats cb) + 1));
      [lia|].
    destruct (IH (onFailure (fst (first fn)) cb)) as (H1 & H2 & H3);
      [assumption | assumption | rewrite Ho, Hfl; lia |].
    rewrite H1, H2, H3, Ho, Hfl, length_cons, Nat2Z.inj_succ.
    repeat split; lia.
Qed.

(** The failure that brings the count to the threshold opens the breaker. *)
Lemma closed_trip calls : forall cb,
  state (stats cb) = CLOSED ->
  Forall (fun c => fails (snd c) = true) calls ->
  calls <> [] ->
  failures (stats cb) + Z.of_nat (length calls) = failureThreshold (options cb) ->
  state (stats (run_calls calls cb)) = OPEN.
Proof.
  induction calls as [|[now fn] calls IH]; intros cb Hc Hall Hne Heq;
    [congruence|].
  inversion Hall as [|? ? Hf Hrest]; subst. simpl in Hf.
  rewrite run_calls_cons, (execute_closed_failure now fn cb Hc Hf).
  destruct (onFailure_closed (fst (first fn)) cb Hc)
    as (Ho & Hfl & _ & _ & Hst).
  rewrite length_cons, Nat2Z.inj_succ in Heq.
  destruct calls as [|c calls].
  - simpl in *. rewrite Hst.
    destruct (Z.leb_spec (failureThreshold (options cb)) (failures (stats cb) + 1));
      [reflexivity|lia].
  - apply IH; try assumption; try congruence.
    + rewrite Hst.
      destruct (Z.leb_spec (failureThreshold (options cb)) (failures (stats cb) + 1));
        [|reflexivity].
      rewrite length_cons, Nat2Z.inj_succ in Heq. lia.
    + rewrite Ho, Hfl. lia.
Qed.

End Streaks.

(** C1. The CLOSED row of the transition table.  A breaker built by the
    constructor has state CLOSED and zeroed counters.  While CLOSED, an
    [execute] whose operation succeeds invokes it, resets [failures] to 0
    and stays CLOSED whatever the count was; an [execute] whose operation
    fails (by rejection or by timeout) adds one to [failures] and records
    the clock reading of that failure in [lastFailureTime].  From a new
    breaker, consecutive failing calls fewer than [failureThreshold] leave
    the state CLOSED, and the [failureThreshold]-th one makes it OPEN. *)
Theorem closed_row :
  (forall o : PartialOptions,
     stats (constructor o) =
       {| failures := 0; successes := 0; lastFailureTime := None;
          state := CLOSED |}) /\
  (forall (T : Type) (now : Z) (fn : Operation T) (cb : CircuitBreaker),
     state (stats cb) = CLOSED -> succeeds fn = true ->
     invocations (execute now fn cb) = 1%nat /\
     failures (stats (after (execute now fn cb))) = 0 /\
     state (stats (after (execute now fn cb))) = CLOSED) /\
  (forall (T : Type) (now : Z) (fn : Operation T) (cb : CircuitBreaker),
     state (stats cb) = CLOSED -> fails fn = true ->
     invocations (execute now fn cb) = 1%nat /\
     failures (stats (after (execute now fn cb))) = failures (stats cb) + 1 /\
     lastFailureTime (stats (after (execute now fn cb))) =
       Some (fst (first fn))) /\
  (forall (T : Type) (o : PartialOptions) (calls : list (Z * Operation T)),
     Forall (fun c => fails (snd c) = true) calls ->
     (Z.of_nat (length calls) < failureThreshold (options (constructor o)) ->
      state (stats (run_calls calls (constructor o))) = CLOSED) /\
     (Z.of_nat (length calls) = failureThreshold (options (constructor o)) ->
      state (stats (run_calls calls (constructor o))) = OPEN)).
Proof.
  split; [reflexivity|]. split; [|split].
  - intros T now fn cb Hc Hs.
    rewrite execute_not_open by congruence. simpl.
    destruct (attempt_succeeds fn cb Hs) as [-> _].
    rewrite (onSuccess_closed cb Hc). simpl. auto.
  - intros T now fn cb Hc Hf.
    rewrite execute_not_open by congruence. simpl.
    destruct (attempt_fails fn cb Hf) as [-> _].
    destruct (onFailure_closed (fst (first fn)) cb Hc) as (_ & H1 & _ & H2 & _).
    auto.
  - intros T o calls Hall. split; intros Hlen.
    + apply closed_streak; [reflexivity | assumption | simpl in *; lia].
    + apply closed_trip; [reflexivity | assumption | | simpl in *; lia].
      intros ->. simpl in Hlen.
      symmetry in Hlen. revert Hlen. apply or_default_nonzero. lia.
Qed.

(** C1 at the breaker of the unit tests: a success clears two recorded
    failures, a failure is stamped with its clock reading, two failures keep
    the breaker CLOSED and the third opens it. *)
Lemma closed_row_witness :
  failures (stats (after (execute 50 (Samples.succeedAt 50)
                            (set_failures 2 Samples.testBreaker)))) = 0 /\
  lastFailureTime (stats (after (execute 50 (Samples.failAt 50)
                                   Samples.testBreaker))) = Some 52 /\
  state (stats (run_calls [(0, Samples.failAt 0); (10, Samples.failAt 10)]
                  (constructor Samples.testOptions))) = CLOSED /\
  state (stats (run_calls [(0, Samples.failAt 0); (10, Samples.failAt 10);
                           (20, Samples.hangAt 20)]
                  (constructor Samples.testOptions))) = OPEN.
Proof.
  destruct closed_row as (_ & Hs & Hf & Hn).
  split; [|split; [|split]].
  - apply (Hs string 50 (Samples.succeedAt 50)
             (set_failures 2 Samples.testBreaker)); reflexivity.
  - apply (Hf string 50 (Samples.failAt 50) Samples.testBreaker); reflexivity.
  - apply (Hn string Samples.testOptions
             [(0, Samples.failAt 0); (10, Samples.failAt 10)]).
    + repeat constructor.
    + reflexivity.
  - apply (Hn string Samples.testOptions
             [(0, Samples.failAt 0); (10, Samples.failAt 10);
              (20, Samples.hangAt 20)]).
    + repeat constructor.
    + reflexivity.
Defined.

(** *** The OPEN row *)

Lemma shouldAttemptReset_recorded now cb t :
  lastFailureTime (stats cb) = Some t -> t <> 0 ->
  shouldAttemptReset now cb = (resetTimeout (options cb) <=? now - t).
Proof.
  intros Ht Hnz. unfold shouldAttemptReset. rewrite Ht. simpl.
  destruct (Z.eqb_spec t 0); [contradiction|reflexivity].
Qed.

Lemma shouldAttemptReset_elapsed now cb t :
  lastFailureTime (stats cb) = Some t ->
  resetTimeout (options cb) <= now - t ->
  shouldAttemptReset now cb = true.
Proof.
  intros Ht Hle. unfold shouldAttemptReset. rewrite Ht. simpl.
  destruct (t =? 0); [reflexivity|]. apply Z.leb_le, Hle.
Qed.

Section Admission.
Context {T : Type}.
Implicit Types (fn : Operation T).

Lemma execute_open_rejected now fn cb :
  state (stats cb) = OPEN -> shouldAttemptReset now cb = false ->
  execute now fn cb =
    {| result := Some (Rejected openError); after := cb;
       invocations := 0; raceAfter := None |}.
Proof. intros Ho Hr. unfold execute. rewrite Ho, Hr. reflexivity. Qed.

Lemma execute_open_probe now fn cb :
  state (stats cb) = OPEN -> shouldAttemptReset now cb = true ->
  execute now fn cb = ran (attempt fn (set_state HALF_OPEN cb)).
Proof. intros Ho Hr. unfold execute. rewrite Ho, Hr. reflexivity. Qed.

(** A call that was let through ran its race on [entered cb]. *)
Lemma execute_invoked now fn cb :
  invocations (execute now fn cb) = 1%nat ->
  execute now fn cb = ran (attempt fn (entered cb)).
Proof.
  unfold execute, entered.
  destruct (CircuitState_eqb (state (stats cb)) OPEN); [|reflexivity].
  destruct (shouldAttemptReset now cb); [reflexivity|discriminate].
Qed.

(** A call that did not invoke the operation was turned away by the OPEN check. *)
Lemma execute_not_invoked now fn cb :
  invocations (execute now fn cb) = 0%nat ->
  state (stats cb) = OPEN /\ shouldAttemptReset now cb = false.
Proof.
  unfold execute.
  destruct (state (stats cb)); simpl; try discriminate.
  destruct (shouldAttemptReset now cb); simpl; [discriminate|auto].
Qed.

Lemma after_attempt fn cb :
  breaker (attempt fn cb) =
    if fails fn then onFailure (fst (first fn)) cb else onSuccess cb.
Proof.
  rewrite attempt_first. unfold fails.
  destruct (first fn) as [t [|v|e|e]]; reflexivity.
Qed.

End Admission.

(** The OPEN row for a breaker whose [lastFailureTime] is [t]: with [t]
    non-zero and less than [resetTimeout] passed since, [execute] is
    rejected with the breaker-open error and the operation is not invoked;
    with at least [resetTimeout] passed, [execute] sets the state to
    HALF_OPEN first and invokes the operation once on that breaker. *)
Lemma open_row_stamped :
  forall (T : Type) (now : Z) (fn : Operation T) (cb : CircuitBreaker) (t : Z),
    state (stats cb) = OPEN ->
    lastFailureTime (stats cb) = Some t ->
    (t <> 0 -> now - t < resetTimeout (options cb) ->
     result (execute now fn cb) = Some (Rejected openError) /\
     invocations (execute now fn cb) = 0%nat /\
     openError <> timeoutError) /\
    (resetTimeout (options cb) <= now - t ->
     invocations (execute now fn cb) = 1%nat /\
     state (stats (set_state HALF_OPEN cb)) = HALF_OPEN /\
     execute now fn cb = ran (attempt fn (set_state HALF_OPEN cb)) /\
     after (execute now fn cb) =
       if fails fn
       then onFailure (fst (first fn)) (set_state HALF_OPEN cb)
       else onSuccess (set_state HALF_OPEN cb)).
Proof.
  intros T now fn cb t Ho Ht. split.
  - intros Hnz Hlt.
    rewrite execute_open_rejected; [simpl; repeat split; discriminate | exact Ho |].
    rewrite (shouldAttemptReset_recorded now cb t Ht Hnz).
    apply Z.leb_gt, Hlt.
  - intros Hle.
    rewrite (execute_open_probe now fn cb Ho
               (shouldAttemptReset_elapsed now cb t Ht Hle)).
    simpl. repeat split. apply after_attempt.
Qed.

(** Why the stamp has to be non-zero: [!this.stats.lastFailureTime] takes
    a stamp of 0 for a missing one.  A breaker forced open at clock reading
    0, a reading no run of the server sees, lets a call through 1000 ms into
    a 5000 ms cooldown. *)
Lemma open_row_zero_stamp :
  state (stats (Samples.openedAt 0)) = OPEN /\
  lastFailureTime (stats (Samples.openedAt 0)) = Some 0 /\
  1000 - 0 < resetTimeout (options (Samples.openedAt 0)) /\
  invocations (execute 1000 (Samples.succeedAt 1000) (Samples.openedAt 0)) =
    1%nat /\
  result (execute 1000 (Samples.succeedAt 1000) (Samples.openedAt 0)) =
    Some (Fulfilled "success").
Proof. repeat split. Qed.

(** C10.  A call turned away by the OPEN check (state OPEN, no reset due) leaves
    the whole breaker as it was: state, both counters and
    [lastFailureTime]; a call that never reached the operation is such a
    call.  Hence any run of calls that are all turned away ends in the
    breaker it started from, with the same [lastFailureTime]. *)
Theorem rejection_leaves_breaker :
  forall (T : Type) (cb : CircuitBreaker),
    (forall (now : Z) (fn : Operation T),
       state (stats cb) = OPEN -> shouldAttemptReset now cb = false ->
       after (execute now fn cb) = cb /\
       invocations (execute now fn cb) = 0%nat) /\
    (forall (now : Z) (fn : Operation T),
       invocations (execute now fn cb) = 0%nat ->
       after (execute now fn cb) = cb) /\
    (forall calls : list (Z * Operation T),
       state (stats cb) = OPEN ->
       Forall (fun c => shouldAttemptReset (fst c) cb = false) calls ->
       run_calls calls cb = cb).
Proof.
  intros T cb. split; [|split].
  - intros now fn Ho Hr. rewrite (execute_open_rejected now fn cb Ho Hr).
    split; reflexivity.
  - intros now fn Hi.
    destruct (execute_not_invoked now fn cb Hi) as [Ho Hr].
    rewrite (execute_open_rejected now fn cb Ho Hr). reflexivity.
  - intros calls Ho Hall.
    induction calls as [|[now fn] calls IH]; [reflexivity|].
    inversion Hall as [|? ? Hr Hrest]; subst. simpl in Hr.
    rewrite run_calls_cons, (execute_open_rejected now fn cb Ho Hr). simpl.
    apply IH, Hrest.
Qed.

(** C10 at the breaker of the unit tests, forced open at 1000: calls at
    2000, 3000 and 5999 are turned away and the breaker is unchanged. *)
Lemma rejection_leaves_breaker_witness :
  after (execute 2000 (Samples.failAt 2000) (Samples.openedAt 1000)) =
    Samples.openedAt 1000 /\
  run_calls [(2000, Samples.failAt 2000); (3000, Samples.hangAt 3000);
             (5999, Samples.succeedAt 5999)] (Samples.openedAt 1000) =
    Samples.openedAt 1000.
Proof.
  destruct (rejection_leaves_breaker string (Samples.openedAt 1000))
    as (H1 & H2 & H3).
  split.
  - apply H2. apply (H1 2000 (Samples.failAt 2000)); reflexivity.
  - apply H3; [reflexivity | repeat constructor].
Defined.

(** *** The HALF_OPEN row *)

Lemma onSuccess_half_open cb :
  state (stats cb) = HALF_OPEN ->
  onSuccess cb =
    if successThreshold (options cb) <=? successes (stats cb) + 1
    then reset cb
    else set_successes (successes (stats cb) + 1) cb.
Proof.
  intros Hh. unfold onSuccess. rewrite Hh. simpl.
  destruct (successThreshold (options cb) <=? successes (stats cb) + 1);
    reflexivity.
Qed.

Lemma onFailure_half_open now cb :
  state (stats cb) = HALF_OPEN ->
  stats (onFailure now cb) =
    {| failures := failures (stats cb) + 1; successes := 0;
       lastFailureTime := Some now; state := OPEN |}.
Proof. intros Hh. unfold onFailure. simpl. rewrite Hh. reflexivity. Qed.

Section Probes.
Context {T : Type}.
Implicit Types (calls : list (Z * Operation T)).

Lemma execute_half_open now (fn : Operation T) cb :
  state (stats cb) = HALF_OPEN ->
  execute now fn cb = ran (attempt fn cb).
Proof. intros Hh. apply execute_not_open. congruence. Qed.

(** The success that brings the count to the threshold closes the breaker
    with everything zeroed. *)
Lemma half_open_close calls : forall cb,
  state (stats cb) = HALF_OPEN ->
  Forall (fun c => succeeds (snd c) = true) calls ->
  calls <> [] ->
  successes (stats cb) + Z.of_nat (length calls) = successThreshold (options cb) ->
  run_calls calls cb = reset cb.
Proof.
  induction calls as [|[now fn] calls IH]; intros cb Hh Hall Hne Heq;
    [congruence|].
  inversion Hall as [|? ? Hs Hrest]; subst. simpl in Hs.
  rewrite length_cons, Nat2Z.inj_succ in *.
  rewrite run_calls_cons, (execute_half_open now fn cb Hh). simpl.
  destruct (attempt_succeeds fn cb Hs) as [-> _].
  rewrite (onSuccess_half_open cb Hh).
  destruct calls as [|c calls].
  - simpl in *.
    destruct (Z.leb_spec (successThreshold (options cb)) (successes (stats cb) + 1));
      [reflexivity|lia].
  - rewrite length_cons, Nat2Z.inj_succ in *.
    destruct (Z.leb_spec (successThreshold (options cb)) (successes (stats cb) + 1));
      [lia|].
    rewrite IH; simpl; try assumption; try congruence; [reflexivity|lia].
Qed.

End Probes.

(** C3.  The HALF_OPEN row of the transition table.  In HALF_OPEN a
    successful [execute] adds one to [successes]; if the new count is still
    below [successThreshold] nothing else changes, and if it reaches the
    threshold the breaker becomes CLOSED with [failures] and [successes]
    both 0.  A failed [execute] in HALF_OPEN makes the state OPEN at once,
    sets [successes] to 0 and records the clock reading of the failure in
    [lastFailureTime].  Consecutive successful probes that bring
    [successes] up to [successThreshold] end in the reset, CLOSED breaker. *)
Theorem half_open_row :
  forall (T : Type) (cb : CircuitBreaker),
    state (stats cb) = HALF_OPEN ->
    (forall (now : Z) (fn : Operation T),
       succeeds fn = true ->
       successes (stats cb) + 1 < successThreshold (options cb) ->
       stats (after (execute now fn cb)) =
         {| failures := failures (stats cb);
            successes := successes (stats cb) + 1;
            lastFailureTime := lastFailureTime (stats cb);
            state := HALF_OPEN |}) /\
    (forall (now : Z) (fn : Operation T),
       succeeds fn = true ->
       successThreshold (options cb) <= successes (stats cb) + 1 ->
       stats (after (execute now fn cb)) =
         {| failures := 0; successes := 0; lastFailureTime := None;
            state := CLOSED |}) /\
    (forall (now : Z) (fn : Operation T),
       fails fn = true ->
       state (stats (after (execute now fn cb))) = OPEN /\
       successes (stats (after (execute now fn cb))) = 0 /\
       lastFailureTime (stats (after (execute now fn cb))) =
         Some (fst (first fn))) /\
    (forall calls : list (Z * Operation T),
       Forall (fun c => succeeds (snd c) = true) calls ->
       calls <> [] ->
       successes (stats cb) + Z.of_nat (length calls) =
         successThreshold (options cb) ->
       stats (run_calls calls cb) =
         {| failures := 0; successes := 0; lastFailureTime := None;
            state := CLOSED |}).
Proof.
  intros T cb Hh. split; [|split; [|split]].
  - intros now fn Hs Hlt.
    rewrite (execute_half_open now fn cb Hh). simpl.
    destruct (attempt_succeeds fn cb Hs) as [-> _].
    rewrite (onSuccess_half_open cb Hh).
    destruct (Z.leb_spec (successThreshold (options cb)) (successes (stats cb) + 1));
      [lia|].
    simpl. rewrite Hh. reflexivity.
  - intros now fn Hs Hle.
    rewrite (execute_half_open now fn cb Hh). simpl.
    destruct (attempt_succeeds fn cb Hs) as [-> _].
    rewrite (onSuccess_half_open cb Hh).
    destruct (Z.leb_spec (successThreshold (options cb)) (successes (stats cb) + 1));
      [reflexivity|lia].
  - intros now fn Hf.
    rewrite (execute_half_open now fn cb Hh). simpl.
    destruct (attempt_fails fn cb Hf) as [-> _].
    rewrite (onFailure_half_open _ cb Hh). simpl. auto.
  - intros calls Hall Hne Heq.
    rewrite (half_open_close calls cb Hh Hall Hne Heq). reflexivity.
Qed.

(** C3 at the breaker of the unit tests (successThreshold 2): the first
    successful probe is counted, the second closes the breaker, a failed
    probe opens it again, and two successes in a row close it. *)
Lemma half_open_row_witness :
  successes (stats (after (execute 10 (Samples.succeedAt 10)
                             (Samples.halfOpen 0)))) = 1 /\
  state (stats (after (execute 10 (Samples.succeedAt 10)
                         (Samples.halfOpen 1)))) = CLOSED /\
  state (stats (after (execute 10 (Samples.hangAt 10)
                         (Samples.halfOpen 1)))) = OPEN /\
  state (stats (run_calls [(10, Samples.succeedAt 10); (20, Samples.succeedAt 20)]
                  (Samples.halfOpen 0))) = CLOSED.
Proof.
  destruct (half_open_row string (Samples.halfOpen 0) eq_refl)
    as (Ha & _ & _ & Hd).
  destruct (half_open_row string (Samples.halfOpen 1) eq_refl)
    as (_ & Hb & Hc & _).
  split; [|split; [|split]].
  - rewrite (Ha 10 (Samples.succeedAt 10)); reflexivity.
  - rewrite (Hb 10 (Samples.succeedAt 10)); [reflexivity | reflexivity | discriminate].
  - apply (Hc 10 (Samples.hangAt 10)). reflexivity.
  - rewrite (Hd [(10, Samples.succeedAt 10); (20, Samples.succeedAt 20)]);
      [reflexivity | repeat constructor | discriminate | reflexivity].
Defined.

(** *** The timeout race and the fallback wrapper *)

Lemma options_entered cb : options (entered cb) = options cb.
Proof.
  unfold entered. destruct (CircuitState_eqb (state (stats cb)) OPEN); reflexivity.
Qed.

(** X17.  How the race ends.  A call of [execute] that is let through arms a
    timer of [options.timeout] and races the operation against it.  If the
    timer fires first, [execute] fails with the timeout error and the
    breaker takes the failure transition at that clock reading; the timer is
    then spent.  If the promise of the operation settles first, [execute]
    ends the way the promise did, the breaker takes the matching
    transition, and the timer is cleared.  Whatever the host delivers after
    the first event, a late result of the operation included, changes
    neither the result nor the breaker. *)
Theorem race_outcomes :
  forall (T : Type) (now : Z) (fn : Operation T) (cb : CircuitBreaker),
    invocations (execute now fn cb) = 1%nat ->
    (forall t : Z,
       first fn = (t, TimerFires) ->
       result (execute now fn cb) = Some (Rejected timeoutError) /\
       after (execute now fn cb) = onFailure t (entered cb) /\
       raceAfter (execute now fn cb) =
         Some {| settled := Some (Rejected timeoutError); timer := Fired;
                 delay := timeout (options cb) |}) /\
    (forall (t : Z) (v : T),
       first fn = (t, FnFulfils v) ->
       result (execute now fn cb) = Some (Fulfilled v) /\
       after (execute now fn cb) = onSuccess (entered cb) /\
       raceAfter (execute now fn cb) =
         Some {| settled := Some (Fulfilled v); timer := Cleared;
                 delay := timeout (options cb) |}) /\
    (forall (t : Z) (e : JsError),
       first fn = (t, FnRejects e) ->
       result (execute now fn cb) = Some (Rejected e) /\
       after (execute now fn cb) = onFailure t (entered cb) /\
       raceAfter (execute now fn cb) =
         Some {| settled := Some (Rejected e); timer := Cleared;
                 delay := timeout (options cb) |}) /\
    (forall evs : list (Z * Event T),
       result (execute now {| first := first fn; later := evs |} cb) =
         result (execute now fn cb) /\
       after (execute now {| first := first fn; later := evs |} cb) =
         after (execute now fn cb)).
Proof.
  intros T now fn cb Hi.
  split; [|split; [|split]].
  - rewrite (execute_invoked now fn cb Hi); simpl.
    rewrite attempt_first, options_entered. destruct (first fn) as [t' ev].
    intros t Heq. inversion Heq; subst. auto.
  - rewrite (execute_invoked now fn cb Hi); simpl.
    rewrite attempt_first, options_entered. destruct (first fn) as [t' ev].
    intros t v Heq. inversion Heq; subst. auto.
  - rewrite (execute_invoked now fn cb Hi); simpl.
    rewrite attempt_first, options_entered. destruct (first fn) as [t' ev].
    intros t e Heq. inversion Heq; subst. auto.
  - intros evs.
    assert (Hi' : invocations
                    (execute now {| first := first fn; later := evs |} cb) =
                  1%nat).
    { revert Hi. unfold execute.
      destruct (CircuitState_eqb (state (stats cb)) OPEN); [|reflexivity].
      destruct (shouldAttemptReset now cb); [reflexivity|discriminate]. }
    rewrite (execute_invoked now fn cb Hi), (execute_invoked now _ cb Hi').
    simpl.
    rewrite (attempt_first fn), (attempt_first {| first := first fn; later := evs |}).
    simpl. destruct (first fn) as [t [|v|e|e]]; split; reflexivity.
Qed.

(** X17 at the breaker of the unit tests: an operation that answers
    500 ms after the timer fired counts as one failure, stamped when the
    timer fired, and its late answer changes nothing. *)
Lemma race_outcomes_witness :
  result (execute 0 (Samples.hangAt 0) Samples.testBreaker) =
    Some (Rejected timeoutError) /\
  stats (after (execute 0 (Samples.hangAt 0) Samples.testBreaker)) =
    {| failures := 1; successes := 0; lastFailureTime := Some 1000;
       state := CLOSED |} /\
  after (execute 0 {| first := first (Samples.hangAt 0); later := [] |}
           Samples.testBreaker) =
  after (execute 0 (Samples.hangAt 0) Samples.testBreaker).
Proof.
  destruct (race_outcomes string 0 (Samples.hangAt 0) Samples.testBreaker eq_refl)
    as (H1 & _ & _ & H4).
  destruct (H1 1000 eq_refl) as (Hr & Ha & _).
  split; [exact Hr|]. split; [rewrite Ha; reflexivity|]. apply H4.
Defined.

(** C6 fails on an operation that throws before it returns a promise.
    The executor of the promise turns the throw into a rejection, which
    [execute] books as a failure and passes on; but [clearTimeout] is only
    called from the [then] and [catch] callbacks, which are never attached,
    so the timer stays armed after the race is decided and is spent only
    when it fires, [options.timeout] later.  An operation that rejects its
    promise with the same error has its timer cleared. *)
Theorem sync_throw_leaves_timer_armed :
  result (execute 50 (Samples.throwAt 50) Samples.testBreaker) =
    Some (Rejected (Error "boom")) /\
  stats (after (execute 50 (Samples.throwAt 50) Samples.testBreaker)) =
    {| failures := 1; successes := 0; lastFailureTime := Some 50;
       state := CLOSED |} /\
  raceAfter (execute 50 (Samples.throwAt 50) Samples.testBreaker) =
    Some {| settled := Some (Rejected (Error "boom")); timer := Armed;
            delay := 1000 |} /\
  raceAfter (execute 50 (Samples.throwThenTimer 50) Samples.testBreaker) =
    Some {| settled := Some (Rejected (Error "boom")); timer := Fired;
            delay := 1000 |} /\
  raceAfter (execute 50 (Samples.failAt 48) Samples.testBreaker) =
    Some {| settled := Some (Rejected (Error "fail")); timer := Cleared;
            delay := 1000 |}.
Proof. repeat split. Qed.

Lemma execute_result now {T : Type} (fn : Operation T) cb :
  result (execute now fn cb) =
    if Nat.eqb (invocations (execute now fn cb)) 0 then Some (Rejected openError)
    else
      match snd (first fn) with
      | TimerFires => Some (Rejected timeoutError)
      | FnFulfils v => Some (Fulfilled v)
      | FnRejects e => Some (Rejected e)
      | FnThrows e => Some (Rejected e)
      end.
Proof.
  unfold execute.
  destruct (CircuitState_eqb (state (stats cb)) OPEN);
    [destruct (shouldAttemptReset now cb)|]; simpl; try reflexivity;
    rewrite attempt_first; destruct (first fn) as [t [|v|e|e]]; reflexivity.
Qed.

(** C8.  [callExternalModelApi] always completes, and always with a
    value: its promise is fulfilled, never pending and never rejected.  The
    value is the result of the operation when the breaker call succeeds.
    It is [fallback] when the breaker turns the call away, when the timer
    fires first and when the operation itself fails; the error is then the
    one written to the console. *)
Theorem callExternalModelApi_total :
  forall (T : Type) (now : Z) (apiCall : Operation T) (fallback : T)
         (cb : CircuitBreaker),
    (exists v : T,
       completion (callExternalModelApi now apiCall fallback cb) =
         Some (Fulfilled v)) /\
    (forall v : T,
       result (execute now apiCall cb) = Some (Fulfilled v) ->
       completion (callExternalModelApi now apiCall fallback cb) =
         Some (Fulfilled v)) /\
    (forall e : JsError,
       result (execute now apiCall cb) = Some (Rejected e) ->
       completion (callExternalModelApi now apiCall fallback cb) =
         Some (Fulfilled fallback) /\
       logged (callExternalModelApi now apiCall fallback cb) = Some e) /\
    (invocations (execute now apiCall cb) = 0%nat ->
     completion (callExternalModelApi now apiCall fallback cb) =
       Some (Fulfilled fallback)) /\
    (invocations (execute now apiCall cb) = 1%nat ->
     fails apiCall = true ->
     completion (callExternalModelApi now apiCall fallback cb) =
       Some (Fulfilled fallback)) /\
    (forall (t : Z) (v : T),
       invocations (execute now apiCall cb) = 1%nat ->
       first apiCall = (t, FnFulfils v) ->
       completion (callExternalModelApi now apiCall fallback cb) =
         Some (Fulfilled v)).
Proof.
  intros T now apiCall fallback cb.
  unfold callExternalModelApi. cbv zeta.
  pose proof (execute_result now apiCall cb) as Hr.
  unfold fails.
  destruct (invocations (execute now apiCall cb)) as [|n]; simpl in Hr;
    [|destruct (first apiCall) as [t' [|v'|e'|e']]; simpl in Hr];
    rewrite Hr; simpl;
    (split; [eexists; reflexivity|]);
    repeat match goal with |- _ /\ _ => split end;
    intros; try discriminate; try reflexivity;
    repeat match goal with
           | H : Some _ = Some _ |- _ => inversion H; clear H; subst
           | H : (_, _) = (_, _) |- _ => inversion H; clear H; subst
           | |- _ /\ _ => split
           end;
    reflexivity.
Qed.

(** C8 at the shared breaker: a good answer is passed on; a rejection, a
    timeout and a call turned away by the open breaker all yield the
    fallback. *)
Lemma callExternalModelApi_total_witness :
  completion (callExternalModelApi 0 (Samples.succeedAt 0) "fallback"
                modelApiCircuitBreaker) = Some (Fulfilled "success") /\
  completion (callExternalModelApi 0 (Samples.failAt 0) "fallback"
                modelApiCircuitBreaker) = Some (Fulfilled "fallback") /\
  completion (callExternalModelApi 0 (Samples.hangAt 0) "fallback"
                modelApiCircuitBreaker) = Some (Fulfilled "fallback") /\
  completion (callExternalModelApi 2000 (Samples.succeedAt 2000) "fallback"
                (forceOpen 1000 modelApiCircuitBreaker)) =
    Some (Fulfilled "fallback").
Proof.
  split; [|split; [|split]].
  - destruct (callExternalModelApi_total string 0 (Samples.succeedAt 0)
                "fallback" modelApiCircuitBreaker) as (_ & _ & _ & _ & _ & H).
    apply (H 2 "success"); reflexivity.
  - destruct (callExternalModelApi_total string 0 (Samples.failAt 0)
                "fallback" modelApiCircuitBreaker) as (_ & _ & _ & _ & H & _).
    apply H; reflexivity.
  - destruct (callExternalModelApi_total string 0 (Samples.hangAt 0)
                "fallback" modelApiCircuitBreaker) as (_ & _ & H & _).
    apply (H timeoutError); reflexivity.
  - destruct (callExternalModelApi_total string 2000 (Samples.succeedAt 2000)
                "fallback" (forceOpen 1000 modelApiCircuitBreaker))
      as (_ & _ & _ & H & _).
    apply H; reflexivity.
Defined.

End BreakerSpec.

(** ** Properties of the cache *)

Module CacheSpec.
Import Cache.

Lemma cache_set key v ttl now c :
  cache (set key v ttl now c) =
    <[key := {| data := v; expiresAt := now + default 300 ttl * 1000 |}]> (cache c).
Proof. reflexivity. Qed.

Lemma get_live key now c entry :
  cache c !! key = Some entry -> now <= expiresAt entry ->
  get key now c = (data entry, c).
Proof.
  intros Hk Hle. unfold get. rewrite Hk.
  destruct (Z.ltb_spec (expiresAt entry) now); [lia|reflexivity].
Qed.

Lemma has_live key now c entry :
  cache c !! key = Some entry -> now <= expiresAt entry ->
  has key now c = (true, c).
Proof.
  intros Hk Hle. unfold has. rewrite Hk.
  destruct (Z.ltb_spec (expiresAt entry) now); [lia|reflexivity].
Qed.

Lemma get_expired key now c entry :
  cache c !! key = Some entry -> expiresAt entry < now ->
  get key now c = (JsNull, with_cache (base.delete key (cache c)) c).
Proof.
  intros Hk Hlt. unfold get. rewrite Hk.
  destruct (Z.ltb_spec (expiresAt entry) now); [reflexivity|lia].
Qed.

(** [has] and [get] leave the same cache behind. *)
Lemma has_get_same_cache key now c : snd (has key now c) = snd (get key now c).
Proof.
  unfold has, get. destruct (cache c !! key) as [entry|]; [|reflexivity].
  destruct (expiresAt entry <? now); reflexivity.
Qed.

(** They agree on presence for every stored value but [null]. *)
Lemma has_get_agree_unless_null key now c :
  (forall entry, cache c !! key = Some entry -> data entry <> JsNull) ->
  fst (has key now c) = true <-> fst (get key now c) <> JsNull.
Proof.
  intros Hnn. unfold has, get.
  destruct (cache c !! key) as [entry|] eqn:Hk; simpl; [|split; congruence].
  destruct (expiresAt entry <? now); simpl; [split; congruence|].
  split; [intros _; apply (Hnn entry eq_refl)|reflexivity].
Qed.

(** C4.  After [set(k, v, t)] with [t > 0], at the same clock reading,
    [get(k)] returns [v] and [has(k)] returns true, and neither changes the
    cache.  [set] stores the entry with [expiresAt = now + t * 1000] whatever
    was stored under [k] before, and touches no other key.  For an entry
    stored under [k], once the clock is past its [expiresAt], [get(k)]
    returns [null] and leaves a cache from which the entry is deleted. *)
Theorem set_get_expire :
  (forall (k : string) (v : JsValue) (t now : Z) (c : InMemoryCache),
     0 < t ->
     get k now (set k v (Some t) now c) = (v, set k v (Some t) now c) /\
     has k now (set k v (Some t) now c) = (true, set k v (Some t) now c)) /\
  (forall (k : string) (v : JsValue) (t now : Z) (c : InMemoryCache),
     cache (set k v (Some t) now c) !! k =
       Some {| data := v; expiresAt := now + t * 1000 |} /\
     (forall k' : string,
        k' <> k -> cache (set k v (Some t) now c) !! k' = cache c !! k')) /\
  (forall (k : string) (entry : CacheEntry) (now : Z) (c : InMemoryCache),
     cache c !! k = Some entry ->
     expiresAt entry < now ->
     fst (get k now c) = JsNull /\
     cache (snd (get k now c)) !! k = None /\
     (forall k' : string,
        k' <> k -> cache (snd (get k now c)) !! k' = cache c !! k')).
Proof.
  split; [|split].
  - intros k v t now c Ht.
    assert (Hk : cache (set k v (Some t) now c) !! k =
                 Some {| data := v; expiresAt := now + t * 1000 |})
      by (rewrite cache_set; apply lookup_insert_eq).
    split.
    + rewrite (get_live _ _ _ _ Hk); [reflexivity | simpl; lia].
    + rewrite (has_live _ _ _ _ Hk); [reflexivity | simpl; lia].
  - intros k v t now c. rewrite cache_set. split.
    + apply lookup_insert_eq.
    + intros k' Hne. apply lookup_insert_ne. congruence.
  - intros k entry now c Hk Hlt.
    rewrite (get_expired k now c entry Hk Hlt). simpl.
    split; [reflexivity|]. split.
    + apply lookup_delete_eq.
    + intros k' Hne. apply lookup_delete_ne. congruence.
Qed.

(** C4 on the test of the suite: [set('key1', 'value', 1)], read at once,
    then read again 1100 ms later. *)
Lemma set_get_expire_witness :
  fst (get "key1" 0 (set "key1" (JsString "value") (Some 1) 0 (constructor None))) =
    JsString "value" /\
  fst (get "key1" 1100
         (set "key1" (JsString "value") (Some 1) 0 (constructor None))) = JsNull.
Proof.
  destruct set_get_expire as (Ha & Hb & Hc).
  split.
  - destruct (Ha "key1" (JsString "value") 1 0 (constructor None)) as [-> _];
      reflexivity.
  - apply (Hc "key1" {| data := JsString "value"; expiresAt := 0 + 1 * 1000 |}).
    + apply (Hb "key1" (JsString "value") 1 0 (constructor None)).
    + reflexivity.
Defined.

(** C5, as the code has it.  [has(k)] and [get(k)] always leave the same
    cache behind, and on an expired entry that cache no longer holds [k].
    Whenever [get(k)] returns something other than [null], [has(k)] is true;
    and if the value stored under [k] is not [null], [has(k)] is true
    exactly when [get(k)] is not [null]. *)
Theorem has_get_agree :
  forall (k : string) (now : Z) (c : InMemoryCache),
    snd (has k now c) = snd (get k now c) /\
    (forall entry : CacheEntry,
       cache c !! k = Some entry -> expiresAt entry < now ->
       fst (has k now c) = false /\ cache (snd (has k now c)) !! k = None) /\
    (fst (get k now c) <> JsNull -> fst (has k now c) = true) /\
    ((forall entry : CacheEntry,
        cache c !! k = Some entry -> data entry <> JsNull) ->
     (fst (has k now c) = true <-> fst (get k now c) <> JsNull)).
Proof.
  intros k now c. split; [apply has_get_same_cache|]. split; [|split].
  - intros entry Hk Hlt. unfold has. rewrite Hk.
    destruct (Z.ltb_spec (expiresAt entry) now); [|lia]. simpl.
    split; [reflexivity|apply lookup_delete_eq].
  - unfold has, get. destruct (cache c !! k) as [entry|]; simpl; [|congruence].
    destruct (expiresAt entry <? now); simpl; congruence.
  - apply has_get_agree_unless_null.
Qed.

(** C5 on the sample cache: the dashboard page is live at 1000 and expired
    at 400000. *)
Lemma has_get_agree_witness :
  (fst (has "dashboard:page=1" 1000 Samples.filled) = true <->
   fst (get "dashboard:page=1" 1000 Samples.filled) <> JsNull) /\
  fst (has "dashboard:page=1" 400000 Samples.filled) = false.
Proof.
  split.
  - apply (has_get_agree "dashboard:page=1" 1000 Samples.filled).
    intros entry Hk. vm_compute in Hk. inversion Hk. discriminate.
  - apply (has_get_agree "dashboard:page=1" 400000 Samples.filled)
      with (entry := {| data := JsString "d"; expiresAt := 300000 |});
      reflexivity.
Defined.

(** C5 as stated fails on a stored [null]: after [set('k', null)] the entry
    is live, [has('k')] answers true and [get('k')] answers [null], the
    answer it gives for a missing key.  Both leave the cache as it is. *)
Lemma has_true_get_null :
  has "k" 0 (set "k" JsNull None 0 (constructor None)) =
    (true, set "k" JsNull None 0 (constructor None)) /\
  get "k" 0 (set "k" JsNull None 0 (constructor None)) =
    (JsNull, set "k" JsNull None 0 (constructor None)) /\
  get "k" 0 (constructor None) = (JsNull, constructor None).
Proof.
  assert (Hk : cache (set "k" JsNull None 0 (constructor None)) !! "k" =
               Some {| data := JsNull; expiresAt := 0 + 300 * 1000 |})
    by (rewrite cache_set; apply lookup_insert_eq).
  split; [|split].
  - apply (has_live _ _ _ _ Hk). simpl. lia.
  - rewrite (get_live _ _ _ _ Hk); [reflexivity | simpl; lia].
  - reflexivity.
Qed.

(** *** Pattern invalidation *)

Section Loop.
Context {RegExp : Type}.
Context (test : RegExp -> string -> bool).
Context (regex : RegExp).
Implicit Types (keys : list string) (m : gmap string CacheEntry) (n : nat).

(** The loop counts the matching keys of the list it is given. *)
Lemma invalidate_loop_count keys : forall m n,
  fst (invalidate_loop test regex keys m n) =
    (n + length (List.filter (test regex) keys))%nat.
Proof.
  induction keys as [|k keys IH]; intros m n; simpl; [lia|].
  destruct (test regex k); simpl; rewrite IH; lia.
Qed.

(** It never touches a key that does not match. *)
Lemma invalidate_loop_keeps keys k : forall m n,
  test regex k = false ->
  snd (invalidate_loop test regex keys m n) !! k = m !! k.
Proof.
  induction keys as [|k' keys IH]; intros m n Hk; simpl; [reflexivity|].
  destruct (test regex k') eqn:Hk'; rewrite IH by assumption; [|reflexivity].
  apply lookup_delete_ne. congruence.
Qed.

(** It never adds a key. *)
Lemma invalidate_loop_absent keys k : forall m n,
  m !! k = None ->
  snd (invalidate_loop test regex keys m n) !! k = None.
Proof.
  induction keys as [|k' keys IH]; intros m n Hk; simpl; [assumption|].
  destruct (test regex k'); apply IH; [|assumption].
  rewrite lookup_delete_None. auto.
Qed.

(** It deletes every matching key of the list. *)
Lemma invalidate_loop_removes keys k : forall m n,
  test regex k = true -> k ∈ keys ->
  snd (invalidate_loop test regex keys m n) !! k = None.
Proof.
  induction keys as [|k' keys IH]; intros m n Hk Hin; simpl.
  - inversion Hin.
  - destruct (decide (k = k')) as [->|Hne].
    + rewrite Hk. apply invalidate_loop_absent, lookup_delete_eq.
    + assert (k ∈ keys) by (inversion Hin; subst; [contradiction|assumption]).
      destruct (test regex k'); apply IH; assumption.
Qed.

(** Over a duplicate-free list of keys that are all present, the entries
    that go are as many as the matches counted. *)
Lemma invalidate_loop_size keys : forall m n,
  NoDup keys -> (forall k, k ∈ keys -> is_Some (m !! k)) ->
  (size (snd (invalidate_loop test regex keys m n)) +
   length (List.filter (test regex) keys) = size m)%nat.
Proof.
  induction keys as [|k keys IH]; intros m n Hnd Hin; simpl; [lia|].
  inversion Hnd as [|? ? Hnotin Hnd']; subst.
  assert (Hk : is_Some (m !! k)) by (apply Hin; left).
  destruct (test regex k); simpl.
  - assert (Hrest : forall k', k' ∈ keys -> is_Some (base.delete k m !! k')).
    { intros k' Hk'. rewrite lookup_delete_ne; [apply Hin; right; assumption|].
      intros ->. contradiction. }
    pose proof (IH (base.delete k m) (S n) Hnd' Hrest) as Hsz.
    rewrite (map_size_delete_Some k m Hk) in Hsz.
    destruct Hk as [x Hx].
    assert (size m <> 0%nat)
      by (apply map_size_non_empty_iff; intros ->; rewrite lookup_empty in Hx;
          discriminate).
    lia.
  - apply IH; [assumption|]. intros k' Hk'. apply Hin. right. assumption.
Qed.

End Loop.

Lemma elem_of_keys_of (m : gmap string CacheEntry) k :
  k ∈ keys_of m <-> is_Some (m !! k).
Proof.
  unfold keys_of. rewrite list_elem_of_fmap. split.
  - intros [[k' e] [-> Hin]]. apply elem_of_map_to_list in Hin. simpl. eauto.
  - intros [e He]. exists (k, e). split; [reflexivity|].
    apply elem_of_map_to_list, He.
Qed.

(** C7.  For a pattern the engine accepts, [invalidatePattern] returns a
    count and leaves a cache in which every key that matches the pattern is
    gone and every key that does not match has the entry it had, value and
    expiry alike; the sweep timer is untouched.  The count is the number of
    matching keys among the keys the cache held when the call began, and it
    is the number of entries removed. *)
Theorem invalidatePattern_exact :
  forall (RegExp : Type) (new_RegExp : string -> Completion RegExp)
         (test : RegExp -> string -> bool)
         (pattern : string) (regex : RegExp) (c : InMemoryCache),
    new_RegExp pattern = Normal regex ->
    exists (count : nat) (c' : InMemoryCache),
      invalidatePattern new_RegExp test pattern c = (Normal count, c') /\
      (forall k : string, test regex k = true -> cache c' !! k = None) /\
      (forall k : string, test regex k = false -> cache c' !! k = cache c !! k) /\
      cleanupInterval c' = cleanupInterval c /\
      count = length (List.filter (test regex) (keys_of (cache c))) /\
      (size (cache c') + count = size (cache c))%nat.
Proof.
  intros RegExp new_RegExp test pattern regex c Hre.
  unfold invalidatePattern. rewrite Hre.
  pose proof (invalidate_loop_count test regex (keys_of (cache c)) (cache c) 0)
    as Hcount.
  pose proof (invalidate_loop_size test regex (keys_of (cache c)) (cache c) 0
                (NoDup_fst_map_to_list (cache c))
                (fun k Hk => proj1 (elem_of_keys_of (cache c) k) Hk)) as Hsize.
  pose proof (fun k => invalidate_loop_keeps test regex (keys_of (cache c)) k
                         (cache c) 0) as Hkeep.
  pose proof (fun k => invalidate_loop_removes test regex (keys_of (cache c)) k
                         (cache c) 0) as Hrem.
  pose proof (fun k => invalidate_loop_absent test regex (keys_of (cache c)) k
                         (cache c) 0) as Habs.
  destruct (invalidate_loop test regex (keys_of (cache c)) (cache c) 0)
    as [count m]; simpl in *.
  exists count, (with_cache m c). simpl.
  split; [reflexivity|]. split; [|split; [|split; [|split]]].
  - intros k Hk. destruct (cache c !! k) as [e|] eqn:He.
    + apply Hrem; [assumption|]. apply elem_of_keys_of. eauto.
    + apply Habs, He.
  - intros k Hk. apply Hkeep, Hk.
  - reflexivity.
  - exact Hcount.
  - rewrite Hcount. exact Hsize.
Qed.

(** C7 on a cache with two campaign pages and a dashboard page. *)
Lemma invalidatePattern_exact_witness :
  exists (count : nat) (c' : InMemoryCache),
    invalidatePattern Samples.literal_RegExp Samples.literal_test
      "campaigns:" Samples.filled = (Normal count, c') /\
    cache c' !! "campaigns:page=1" = None /\
    cache c' !! "dashboard:page=1" = cache Samples.filled !! "dashboard:page=1" /\
    (size (cache c') + count = size (cache Samples.filled))%nat.
Proof.
  destruct (invalidatePattern_exact string Samples.literal_RegExp
              Samples.literal_test "campaigns:" "campaigns:" Samples.filled
              eq_refl)
    as (count & c' & Hrun & Hgone & Hkept & _ & _ & Hsize).
  exists count, c'.
  split; [exact Hrun|]. split; [apply Hgone; reflexivity|].
  split; [apply Hkept; reflexivity|exact Hsize].
Defined.

End CacheSpec.

(** ** Further properties of the cache *)

Module CacheMore.
Import Cache.

Lemma with_cache_same c : with_cache (cache c) c = c.
Proof. destruct c; reflexivity. Qed.

Lemma cache_ext (a b : InMemoryCache) :
  cache a = cache b -> cleanupInterval a = cleanupInterval b -> a = b.
Proof. destruct a, b; simpl; intros -> ->; reflexivity. Qed.

Lemma get_missing key now c :
  cache c !! key = None -> get key now c = (JsNull, c).
Proof. intros Hk. unfold get. rewrite Hk. reflexivity. Qed.

Lemma has_missing key now c :
  cache c !! key = None -> has key now c = (false, c).
Proof. intros Hk. unfold has. rewrite Hk. reflexivity. Qed.

Lemma has_expired key now c entry :
  cache c !! key = Some entry -> expiresAt entry < now ->
  has key now c = (false, with_cache (base.delete key (cache c)) c).
Proof.
  intros Hk Hlt. unfold has. rewrite Hk.
  destruct (Z.ltb_spec (expiresAt entry) now); [reflexivity|lia].
Qed.

(** X1.  [delete(k)] answers true exactly when [k] is held, expired or
    not.  Afterwards [get(k)] is [null] and [has(k)] is false at every clock
    reading, and no other key is touched.  On a key that is not held it
    answers false and the cache is as before. *)
Theorem delete_exact :
  forall (k : string) (c : InMemoryCache),
    (fst (delete k c) = true <-> is_Some (cache c !! k)) /\
    (forall now : Z,
       get k now (snd (delete k c)) = (JsNull, snd (delete k c)) /\
       has k now (snd (delete k c)) = (false, snd (delete k c))) /\
    (forall k' : string,
       k' <> k -> cache (snd (delete k c)) !! k' = cache c !! k') /\
    (cache c !! k = None -> delete k c = (false, c)).
Proof.
  intros k c. unfold delete; simpl. split; [|split; [|split]].
  - apply bool_decide_eq_true.
  - intros now. split.
    + apply get_missing. simpl. apply lookup_delete_eq.
    + apply has_missing. simpl. apply lookup_delete_eq.
  - intros k' Hne. apply lookup_delete_ne. congruence.
  - intros Hk. rewrite Hk, (delete_id _ _ Hk), with_cache_same.
    rewrite bool_decide_eq_false_2; [reflexivity|].
    intros [x Hx]. discriminate.
Qed.

(** X1 on the sample cache: deleting a held key, then a key never set. *)
Lemma delete_exact_witness :
  fst (delete "dashboard:page=1" Samples.filled) = true /\
  delete "metrics:all" Samples.filled = (false, Samples.filled).
Proof.
  destruct (delete_exact "dashboard:page=1" Samples.filled) as (Ha & _).
  destruct (delete_exact "metrics:all" Samples.filled) as (_ & _ & _ & Hd).
  split.
  - apply Ha. vm_compute. eauto.
  - apply Hd. reflexivity.
Defined.

(** *** The sweep *)

Section Sweep.
Context (now : Z).
Implicit Types (l : list (string * CacheEntry)) (m : gmap string CacheEntry).

(** Three facts on the loop of [cleanup] over a list of entries. *)
Lemma sweep_absent l k : forall m,
  m !! k = None ->
  fold_left
    (fun m kv => if expiresAt (snd kv) <? now then base.delete (fst kv) m else m)
    l m !! k = None.
Proof.
  induction l as [|[k' e'] l IH]; intros m Hk; simpl; [assumption|].
  apply IH. destruct (expiresAt e' <? now); [|assumption].
  rewrite lookup_delete_None. auto.
Qed.

Lemma sweep_keeps l k : forall m,
  (forall e, (k, e) ∈ l -> (expiresAt e <? now) = false) ->
  fold_left
    (fun m kv => if expiresAt (snd kv) <? now then base.delete (fst kv) m else m)
    l m !! k = m !! k.
Proof.
  induction l as [|[k' e'] l IH]; intros m Hlive; simpl; [reflexivity|].
  rewrite IH by (intros e He; apply Hlive; right; assumption).
  destruct (expiresAt e' <? now) eqn:Hexp; [|reflexivity].
  apply lookup_delete_ne. intros ->.
  rewrite (Hlive e') in Hexp by left. discriminate.
Qed.

Lemma sweep_removes l k e : forall m,
  (k, e) ∈ l -> (expiresAt e <? now) = true ->
  fold_left
    (fun m kv => if expiresAt (snd kv) <? now then base.delete (fst kv) m else m)
    l m !! k = None.
Proof.
  induction l as [|[k' e'] l IH]; intros m Hin Hexp; simpl.
  - inversion Hin.
  - inversion Hin as [|? ? ? Hin']; subst.
    + rewrite Hexp. apply sweep_absent, lookup_delete_eq.
    + apply IH; assumption.
Qed.

Lemma cleanup_lookup c k :
  cache (cleanup now c) !! k =
    match cache c !! k with
    | Some e => if expiresAt e <? now then None else Some e
    | None => None
    end.
Proof.
  unfold cleanup; simpl.
  destruct (cache c !! k) as [e|] eqn:Hk.
  - destruct (expiresAt e <? now) eqn:Hexp.
    + apply (sweep_removes _ k e); [apply elem_of_map_to_list, Hk|exact Hexp].
    + rewrite sweep_keeps; [exact Hk|].
      intros e' He'. apply elem_of_map_to_list in He'.
      rewrite Hk in He'. inversion He'; subst. exact Hexp.
  - apply sweep_absent, Hk.
Qed.

End Sweep.

(** X2.  The sweep deletes exactly the entries whose [expiresAt] lies
    before the clock reading it took: every other entry keeps its value and
    expiry, no key is added, and the timer handle is untouched. *)
Theorem cleanup_exact :
  forall (now : Z) (c : InMemoryCache) (k : string),
    cache (cleanup now c) !! k =
      match cache c !! k with
      | Some e => if expiresAt e <? now then None else Some e
      | None => None
      end /\
    cleanupInterval (cleanup now c) = cleanupInterval c.
Proof. intros now c k. split; [apply cleanup_lookup|reflexivity]. Qed.

(** X3.  A sweep cannot be seen by readers: at the clock reading of the
    sweep, [get] and [has] answer after it what they would have answered
    without it, and they find nothing left to delete.  A later sweep makes
    an earlier one redundant; in particular sweeping twice at one clock
    reading is sweeping once. *)
Theorem cleanup_unobservable :
  forall (now : Z) (c : InMemoryCache) (k : string),
    fst (get k now (cleanup now c)) = fst (get k now c) /\
    fst (has k now (cleanup now c)) = fst (has k now c) /\
    snd (get k now (cleanup now c)) = cleanup now c /\
    snd (has k now (cleanup now c)) = cleanup now c /\
    (forall now' : Z,
       now <= now' -> cleanup now' (cleanup now c) = cleanup now' c).
Proof.
  intros now c k.
  pose proof (cleanup_lookup now c k) as Hl.
  assert (Hreads :
    get k now (cleanup now c) = (fst (get k now c), cleanup now c) /\
    has k now (cleanup now c) = (fst (has k now c), cleanup now c)).
  { unfold get, has. rewrite Hl.
    destruct (cache c !! k) as [e|]; [|split; reflexivity].
    destruct (expiresAt e <? now) eqn:Hexp; [split; reflexivity|].
    rewrite Hexp. split; reflexivity. }
  destruct Hreads as [Hg Hh]. rewrite Hg, Hh. simpl.
  repeat split.
  intros now' Hle. apply cache_ext; [|reflexivity].
  apply map_eq. intros i.
  rewrite !cleanup_lookup.
  destruct (cache c !! i) as [e|]; [|reflexivity].
  destruct (Z.ltb_spec (expiresAt e) now), (Z.ltb_spec (expiresAt e) now');
    try reflexivity; lia.
Qed.

(** X3 on the sample cache, swept at 1000 and again at 400000. *)
Lemma cleanup_unobservable_witness :
  cleanup 400000 (cleanup 1000 Samples.filled) = cleanup 400000 Samples.filled.
Proof.
  apply (cleanup_unobservable 1000 Samples.filled "dashboard:page=1"). lia.
Defined.

(** *** Lifetime of an entry *)

(** X4.  An entry set at [now] with TTL [t], 300 when the TTL is left out,
    can be read up to and including [now + t * 1000]: [get] returns the
    value and [has] true, and the cache stays as it is.  Any later read
    finds it expired, answers [null] or false, and leaves the cache as if
    [k] had been deleted from the cache before the [set].  This holds for
    every [t], zero and negative ones included. *)
Theorem entry_lifetime :
  forall (k : string) (v : JsValue) (ttl : option Z) (now now' : Z)
         (c : InMemoryCache),
    (now' <= now + default 300 ttl * 1000 ->
     get k now' (set k v ttl now c) = (v, set k v ttl now c) /\
     has k now' (set k v ttl now c) = (true, set k v ttl now c)) /\
    (now + default 300 ttl * 1000 < now' ->
     get k now' (set k v ttl now c) = (JsNull, snd (delete k c)) /\
     has k now' (set k v ttl now c) = (false, snd (delete k c))).
Proof.
  intros k v ttl now now' c.
  assert (Hk : cache (set k v ttl now c) !! k =
               Some {| data := v; expiresAt := now + default 300 ttl * 1000 |})
    by apply lookup_insert_eq.
  split; intros Hcmp.
  - split.
    + rewrite (CacheSpec.get_live _ _ _ _ Hk); [reflexivity|exact Hcmp].
    + rewrite (CacheSpec.has_live _ _ _ _ Hk); [reflexivity|exact Hcmp].
  - assert (Hdel : with_cache (base.delete k (cache (set k v ttl now c)))
                     (set k v ttl now c) = snd (delete k c)).
    { apply cache_ext; [|reflexivity]. simpl. apply delete_insert_eq. }
    split.
    + rewrite (CacheSpec.get_expired _ _ _ _ Hk Hcmp). rewrite Hdel. reflexivity.
    + rewrite (has_expired _ _ _ _ Hk Hcmp). rewrite Hdel. reflexivity.
Qed.

(** X4 with the tiers of [CACHE_TTL]: a SHORT entry is read at its last
    millisecond and gone one later; an entry with TTL 0 is read within its
    millisecond; one with a negative TTL is never read. *)
Lemma entry_lifetime_witness :
  fst (get "k" 60000 (set "k" (JsNumber 7) (Some Keys.SHORT) 0 (constructor None))) =
    JsNumber 7 /\
  fst (get "k" 60001 (set "k" (JsNumber 7) (Some Keys.SHORT) 0 (constructor None))) =
    JsNull /\
  fst (get "k" 5 (set "k" (JsNumber 7) (Some 0) 5 (constructor None))) =
    JsNumber 7 /\
  fst (has "k" 5 (set "k" (JsNumber 7) (Some (-1)) 5 (constructor None))) = false.
Proof.
  split; [|split; [|split]].
  - destruct (entry_lifetime "k" (JsNumber 7) (Some Keys.SHORT) 0 60000
                (constructor None)) as [H _].
    destruct H as [-> _]; [vm_compute; discriminate|reflexivity].
  - destruct (entry_lifetime "k" (JsNumber 7) (Some Keys.SHORT) 0 60001
                (constructor None)) as [_ H].
    destruct H as [-> _]; reflexivity.
  - destruct (entry_lifetime "k" (JsNumber 7) (Some 0) 5 5
                (constructor None)) as [H _].
    destruct H as [-> _]; [vm_compute; discriminate|reflexivity].
  - destruct (entry_lifetime "k" (JsNumber 7) (Some (-1)) 5 5
                (constructor None)) as [_ H].
    destruct H as [_ ->]; reflexivity.
Defined.

(** X5.  The last [set] of a key wins, whatever was set before and when:
    setting a key twice leaves the cache that the second [set] alone
    leaves.  A [set] adds one to the raw size when the key was not held and
    leaves the size alone when it was, held meaning stored, expired or
    not. *)
Theorem set_composes :
  forall (k : string) (v : JsValue) (ttl : option Z) (now : Z)
         (c : InMemoryCache),
    (forall (v0 : JsValue) (ttl0 : option Z) (now0 : Z),
       set k v ttl now (set k v0 ttl0 now0 c) = set k v ttl now c) /\
    (cache c !! k = None ->
     st_size (stats (set k v ttl now c)) = S (st_size (stats c))) /\
    (is_Some (cache c !! k) ->
     st_size (stats (set k v ttl now c)) = st_size (stats c)).
Proof.
  intros k v ttl now c. split; [|split].
  - intros v0 ttl0 now0. apply cache_ext; [|reflexivity]. simpl.
    apply insert_insert_eq.
  - intros Hk. simpl. apply map_size_insert_None, Hk.
  - intros Hk. simpl. apply map_size_insert_Some, Hk.
Qed.

(** X5 on the sample cache: a new key, and a page set again. *)
Lemma set_composes_witness :
  st_size (stats (set "metrics:all" JsNull None 9 Samples.filled)) =
    S (st_size (stats Samples.filled)) /\
  st_size (stats (set "dashboard:page=1" JsNull None 9 Samples.filled)) =
    st_size (stats Samples.filled).
Proof.
  split.
  - apply (set_composes "metrics:all" JsNull None 9 Samples.filled).
    reflexivity.
  - apply (set_composes "dashboard:page=1" JsNull None 9 Samples.filled).
    vm_compute. eauto.
Defined.

(** *** Raw statistics *)

(** X6.  [stats] reports the raw [Map]: [size] is the number of [keys],
    no key is listed twice, and a key is listed exactly when an entry is
    stored under it.  An expired entry is still listed and counted until a
    read of its key or a sweep deletes it, which takes one off the size. *)
Theorem stats_raw :
  forall c : InMemoryCache,
    st_size (stats c) = length (st_keys (stats c)) /\
    NoDup (st_keys (stats c)) /\
    (forall k : string, k ∈ st_keys (stats c) <-> is_Some (cache c !! k)) /\
    (forall (k : string) (e : CacheEntry) (now : Z),
       cache c !! k = Some e -> expiresAt e < now ->
       k ∈ st_keys (stats c) /\
       S (st_size (stats (snd (get k now c)))) = st_size (stats c) /\
       S (st_size (stats (snd (has k now c)))) = st_size (stats c) /\
       (st_size (stats (cleanup now c)) < st_size (stats c))%nat).
Proof.
  intros c. split; [|split; [|split]].
  - simpl. unfold keys_of. rewrite length_fmap, length_map_to_list. reflexivity.
  - apply NoDup_fst_map_to_list.
  - intros k. apply CacheSpec.elem_of_keys_of.
  - intros k e now Hk Hexp.
    assert (Hpos : size (cache c) <> 0%nat).
    { apply map_size_non_empty_iff. intros Hempty.
      rewrite Hempty, lookup_empty in Hk. discriminate. }
    assert (Hdel : S (size (base.delete k (cache c))) = size (cache c)).
    { rewrite map_size_delete_Some by eauto. lia. }
    assert (Hsweep : (size (cache (cleanup now c)) <=
                      size (base.delete k (cache c)))%nat).
    { apply map_subseteq_size, map_subseteq_spec.
      intros i x Hi. rewrite cleanup_lookup in Hi.
      destruct (cache c !! i) as [e'|] eqn:Hci; [|discriminate].
      destruct (Z.ltb_spec (expiresAt e') now); [discriminate|].
      inversion Hi; subst.
      rewrite lookup_delete_ne; [exact Hci|].
      intros ->. rewrite Hk in Hci. inversion Hci; subst. lia. }
    split; [apply CacheSpec.elem_of_keys_of; eauto|].
    rewrite (CacheSpec.get_expired k now c e Hk Hexp),
            (has_expired k now c e Hk Hexp).
    unfold stats. cbn [st_size snd with_cache cache].
    split; [exact Hdel|]. split; [exact Hdel|].
    eapply Nat.le_lt_trans; [exact Hsweep|]. rewrite <- Hdel. apply Nat.lt_succ_diag_r.
Qed.

(** X6 on the sample cache, whose entries expire at 300000. *)
Lemma stats_raw_witness :
  "dashboard:page=1" ∈ st_keys (stats Samples.filled) /\
  S (st_size (stats (snd (get "dashboard:page=1" 300001 Samples.filled)))) =
    st_size (stats Samples.filled).
Proof.
  destruct (stats_raw Samples.filled) as (_ & _ & _ & H).
  destruct (H "dashboard:page=1" {| data := JsString "d"; expiresAt := 300000 |}
              300001) as (H1 & H2 & _); [reflexivity | reflexivity |].
  split; assumption.
Defined.

(** X7.  [clear] and [destroy] both leave a cache with no entries:
    [stats] reports size 0 and no keys, and every [get] answers [null].
    [clear] keeps the sweep timer, [destroy] clears it.  [destroy] can be
    called again, or after [clear], with the same result. *)
Theorem clear_destroy :
  forall c : InMemoryCache,
    stats (clear c) = {| st_size := 0; st_keys := [] |} /\
    cleanupInterval (clear c) = cleanupInterval c /\
    stats (destroy c) = {| st_size := 0; st_keys := [] |} /\
    cleanupInterval (destroy c) = None /\
    destroy (destroy c) = destroy c /\
    destroy (clear c) = destroy c /\
    (forall (k : string) (now : Z),
       get k now (clear c) = (JsNull, clear c) /\
       get k now (destroy c) = (JsNull, destroy c)).
Proof.
  intros c.
  assert (Hd : destroy c = {| cache := ∅; cleanupInterval := None |})
    by (unfold destroy; destruct (cleanupInterval c) eqn:Hc;
        [reflexivity | destruct c; simpl in *; subst; reflexivity]).
  assert (Hs : forall t, stats {| cache := ∅; cleanupInterval := t |} =
                         {| st_size := 0; st_keys := [] |}).
  { intros t. unfold stats, keys_of. simpl.
    rewrite map_size_empty, map_to_list_empty. reflexivity. }
  assert (Hdc : destroy (clear c) = {| cache := ∅; cleanupInterval := None |})
    by (unfold destroy, clear, with_cache; simpl;
        destruct (cleanupInterval c) eqn:E; simpl; rewrite ?E; reflexivity).
  split; [apply Hs|]. split; [reflexivity|].
  split; [rewrite Hd; apply Hs|]. split; [rewrite Hd; reflexivity|].
  split; [rewrite Hd; reflexivity|]. split; [rewrite Hd, Hdc; reflexivity|].
  intros k now. rewrite Hd. split; reflexivity.
Qed.

(** *** Pattern invalidation, again *)

Section Patterns.
Context {RegExp : Type}.
Context (new_RegExp : string -> Completion RegExp).
Context (test : RegExp -> string -> bool).

Lemma invalidate_loop_no_match regex (keys : list string) :
  forall (m : gmap string CacheEntry) (n : nat),
    (forall k, k ∈ keys -> test regex k = false) ->
    invalidate_loop test regex keys m n = (n, m).
Proof.
  induction keys as [|k keys IH]; intros m n Hno; simpl; [reflexivity|].
  rewrite (Hno k) by left. apply IH. intros k' Hk'. apply Hno. right. assumption.
Qed.

Lemma filter_all_true (keys : list string) regex :
  (forall k, k ∈ keys -> test regex k = true) ->
  List.filter (test regex) keys = keys.
Proof.
  induction keys as [|k keys IH]; intros Hall; simpl; [reflexivity|].
  rewrite (Hall k) by left. f_equal. apply IH.
  intros k' Hk'. apply Hall. right. assumption.
Qed.

(** What [invalidatePattern] leaves under a key, read off the loop. *)
Lemma invalidated_lookup regex (c : InMemoryCache) k :
  snd (invalidate_loop test regex (keys_of (cache c)) (cache c) 0) !! k =
    if test regex k then None else cache c !! k.
Proof.
  destruct (test regex k) eqn:Hk.
  - destruct (cache c !! k) as [e|] eqn:He.
    + apply CacheSpec.invalidate_loop_removes; [exact Hk|].
      apply CacheSpec.elem_of_keys_of. eauto.
    + apply CacheSpec.invalidate_loop_absent, He.
  - apply CacheSpec.invalidate_loop_keeps, Hk.
Qed.

End Patterns.

(** X8.  For a pattern the engine accepts: invalidating a second time
    right after the first removes nothing and returns 0; if no held key
    matches, the call returns 0 and the cache is as before; if every held
    key matches, the call returns the raw size and leaves what [clear]
    leaves. *)
Theorem invalidatePattern_extremes :
  forall (RegExp : Type) (new_RegExp : string -> Completion RegExp)
         (test : RegExp -> string -> bool)
         (pattern : string) (regex : RegExp) (c : InMemoryCache),
    new_RegExp pattern = Normal regex ->
    (forall (count : nat) (c' : InMemoryCache),
       invalidatePattern new_RegExp test pattern c = (Normal count, c') ->
       invalidatePattern new_RegExp test pattern c' = (Normal 0%nat, c')) /\
    ((forall k : string, is_Some (cache c !! k) -> test regex k = false) ->
     invalidatePattern new_RegExp test pattern c = (Normal 0%nat, c)) /\
    ((forall k : string, is_Some (cache c !! k) -> test regex k = true) ->
     invalidatePattern new_RegExp test pattern c =
       (Normal (size (cache c)), clear c)).
Proof.
  intros RegExp new_RegExp test pattern regex c Hre.
  assert (Hnone : forall c0 : InMemoryCache,
            (forall k, is_Some (cache c0 !! k) -> test regex k = false) ->
            invalidatePattern new_RegExp test pattern c0 = (Normal 0%nat, c0)).
  { intros c0 Hno. unfold invalidatePattern. rewrite Hre.
    rewrite invalidate_loop_no_match
      by (intros k Hk; apply Hno, CacheSpec.elem_of_keys_of, Hk).
    rewrite with_cache_same. reflexivity. }
  split; [|split; [exact (Hnone c)|]].
  - intros count c' Hrun. apply Hnone.
    unfold invalidatePattern in Hrun. rewrite Hre in Hrun.
    pose proof (fun k => invalidated_lookup test regex c k) as Hl.
    destruct (invalidate_loop test regex (keys_of (cache c)) (cache c) 0)
      as [n m]. simpl in Hl. inversion Hrun; subst. simpl.
    intros k [e He]. rewrite Hl in He.
    destruct (test regex k); [discriminate|reflexivity].
  - intros Hall. unfold invalidatePattern. rewrite Hre.
    pose proof (CacheSpec.invalidate_loop_count test regex
                  (keys_of (cache c)) (cache c) 0) as Hcount.
    pose proof (fun k => invalidated_lookup test regex c k) as Hl.
    destruct (invalidate_loop test regex (keys_of (cache c)) (cache c) 0)
      as [n m]. simpl in Hl, Hcount.
    rewrite filter_all_true in Hcount
      by (intros k Hk; apply Hall, CacheSpec.elem_of_keys_of, Hk).
    unfold keys_of in Hcount. rewrite length_fmap, length_map_to_list in Hcount.
    subst n. f_equal. unfold clear. f_equal.
    apply map_empty. intros k. rewrite Hl.
    destruct (test regex k) eqn:Hk; [reflexivity|].
    destruct (cache c !! k) as [e|] eqn:He; [|reflexivity].
    rewrite Hall in Hk by eauto. discriminate.
Qed.

(** X8 on the sample cache: the pattern "page" matches every key, the
    pattern "kpi:" none. *)
Lemma invalidatePattern_extremes_witness :
  invalidatePattern Samples.literal_RegExp Samples.literal_test "kpi:"
    Samples.filled = (Normal 0%nat, Samples.filled) /\
  invalidatePattern Samples.literal_RegExp Samples.literal_test "page"
    Samples.filled = (Normal (size (cache Samples.filled)), clear Samples.filled).
Proof.
  assert (Hkeys : forall k : string,
            is_Some (cache Samples.filled !! k) ->
            k = "campaigns:page=2" \/ k = "dashboard:page=1" \/
            k = "campaigns:page=1").
  { intros k [e He]. unfold Samples.filled in He. rewrite !CacheSpec.cache_set in He.
    destruct (decide (k = "campaigns:page=2")) as [|H1]; [auto|].
    rewrite lookup_insert_ne in He by congruence.
    destruct (decide (k = "dashboard:page=1")) as [|H2]; [auto|].
    rewrite lookup_insert_ne in He by congruence.
    destruct (decide (k = "campaigns:page=1")) as [|H3]; [auto|].
    rewrite lookup_insert_ne in He by congruence.
    simpl in He. rewrite lookup_empty in He. discriminate. }
  split.
  - apply (invalidatePattern_extremes string Samples.literal_RegExp
             Samples.literal_test "kpi:" "kpi:" Samples.filled eq_refl).
    intros k Hk. destruct (Hkeys k Hk) as [->|[->| ->]]; reflexivity.
  - apply (invalidatePattern_extremes string Samples.literal_RegExp
             Samples.literal_test "page" "page" Samples.filled eq_refl).
    intros k Hk. destruct (Hkeys k Hk) as [->|[->| ->]]; reflexivity.
Defined.

(** *** Runs of requests *)

Section Frames.
Context {RegExp : Type}.
Context (new_RegExp : string -> Completion RegExp).
Context (test : RegExp -> string -> bool).

(** One request that is not a [set] stores nothing new under any key. *)
Lemma perform_stores_nothing now r c k :
  Runs.is_set r = false ->
  cache (snd (perform new_RegExp test now r c)) !! k = None \/
  cache (snd (perform new_RegExp test now r c)) !! k = cache c !! k.
Proof.
  intros Hr. destruct r; simpl in *; try discriminate; auto.
  - unfold get. destruct (cache c !! key) as [e|]; [|auto].
    destruct (expiresAt e <? now); simpl; [|auto].
    destruct (decide (key = k)) as [->|Hne];
      [left; apply lookup_delete_eq | right; apply lookup_delete_ne, Hne].
  - unfold has. destruct (cache c !! key) as [e|]; [|auto].
    destruct (expiresAt e <? now); simpl; [|auto].
    destruct (decide (key = k)) as [->|Hne];
      [left; apply lookup_delete_eq | right; apply lookup_delete_ne, Hne].
  - destruct (decide (key = k)) as [->|Hne];
      [left; apply lookup_delete_eq | right; apply lookup_delete_ne, Hne].
  - unfold invalidatePattern.
    destruct (new_RegExp pattern) as [regex|e]; [|simpl; auto].
    pose proof (invalidated_lookup test regex c k) as Hl.
    destruct (invalidate_loop test regex (keys_of (cache c)) (cache c) 0)
      as [n m]. simpl in *. rewrite Hl. destruct (test regex k); auto.
Qed.

(** Only [destroy] touches the timer handle, and it only clears it. *)
Lemma perform_timer now r c :
  cleanupInterval (snd (perform new_RegExp test now r c)) =
    if Runs.is_destroy r then None else cleanupInterval c.
Proof.
  destruct r; simpl; try reflexivity.
  - unfold get. destruct (cache c !! key) as [e|]; [|reflexivity].
    destruct (expiresAt e <? now); reflexivity.
  - unfold has. destruct (cache c !! key) as [e|]; [|reflexivity].
    destruct (expiresAt e <? now); reflexivity.
  - unfold invalidatePattern.
    destruct (new_RegExp pattern) as [regex|e]; [|reflexivity].
    destruct (invalidate_loop test regex (keys_of (cache c)) (cache c) 0).
    reflexivity.
  - unfold destroy. destruct (cleanupInterval c) eqn:Hc; simpl; auto.
Qed.

End Frames.

(** X9.  Over any run of requests: if none of them is a [set], every key
    ends with the entry it had or with none, so entries come from [set]
    alone and no other method changes a stored value or expiry; if none of
    them is a [destroy], the sweep timer is as it was; and once the timer
    is cleared, no request arms it again. *)
Theorem entries_only_from_set :
  forall (RegExp : Type) (new_RegExp : string -> Completion RegExp)
         (test : RegExp -> string -> bool)
         (requests : list (Z * Request)) (c : InMemoryCache),
    (Forall (fun r => Runs.is_set (snd r) = false) requests ->
     forall k : string,
       cache (Runs.perform_all new_RegExp test requests c) !! k = None \/
       cache (Runs.perform_all new_RegExp test requests c) !! k = cache c !! k) /\
    (Forall (fun r => Runs.is_destroy (snd r) = false) requests ->
     cleanupInterval (Runs.perform_all new_RegExp test requests c) =
       cleanupInterval c) /\
    (cleanupInterval c = None ->
     cleanupInterval (Runs.perform_all new_RegExp test requests c) = None).
Proof.
  intros RegExp new_RegExp test requests.
  induction requests as [|[now r] requests IH]; intros c.
  - simpl. auto.
  - destruct (IH (snd (perform new_RegExp test now r c))) as (IH1 & IH2 & IH3).
    unfold Runs.perform_all in *. simpl. split; [|split].
    + intros Hall k. inversion Hall as [|? ? Hr Hrest]; subst. simpl in Hr.
      destruct (IH1 Hrest k) as [Hn|He]; [auto|]. rewrite He.
      apply perform_stores_nothing, Hr.
    + intros Hall. inversion Hall as [|? ? Hr Hrest]; subst. simpl in Hr.
      rewrite (IH2 Hrest), perform_timer, Hr. reflexivity.
    + intros Hnone. apply IH3. rewrite perform_timer.
      destruct (Runs.is_destroy r); [reflexivity|exact Hnone].
Qed.

(** X9 on the sample cache: reads, a delete, a pattern and a sweep of
    statistics leave the dashboard page as it was or gone, and the timer
    armed; after [destroy] a [set] does not arm the timer again. *)
Lemma entries_only_from_set_witness :
  (cache (Runs.perform_all Samples.literal_RegExp Samples.literal_test
            [(10, Get "dashboard:page=1"); (20, Delete "campaigns:page=1");
             (30, InvalidatePattern "campaigns:"); (40, Stats)]
            Samples.filled) !! "dashboard:page=1" = None \/
   cache (Runs.perform_all Samples.literal_RegExp Samples.literal_test
            [(10, Get "dashboard:page=1"); (20, Delete "campaigns:page=1");
             (30, InvalidatePattern "campaigns:"); (40, Stats)]
            Samples.filled) !! "dashboard:page=1" =
     cache Samples.filled !! "dashboard:page=1") /\
  cleanupInterval
    (Runs.perform_all Samples.literal_RegExp Samples.literal_test
       [(10, Set_ "k" JsNull None); (20, Get "k")]
       (destroy Samples.filled)) = None.
Proof.
  split.
  - apply (entries_only_from_set string Samples.literal_RegExp
             Samples.literal_test
             [(10, Get "dashboard:page=1"); (20, Delete "campaigns:page=1");
              (30, InvalidatePattern "campaigns:"); (40, Stats)]
             Samples.filled).
    repeat constructor.
  - apply (entries_only_from_set string Samples.literal_RegExp
             Samples.literal_test
             [(10, Set_ "k" JsNull None); (20, Get "k")]
             (destroy Samples.filled)).
    reflexivity.
Defined.

End CacheMore.

(** ** Further properties of the circuit breaker *)

Module BreakerMore.
Import Breaker.
Import Runs.

Lemma options_onSuccess cb : options (onSuccess cb) = options cb.
Proof.
  unfold onSuccess. destruct (CircuitState_eqb (state (stats cb)) HALF_OPEN);
    [|reflexivity].
  simpl. destruct (successThreshold (options cb) <=? successes (stats cb) + 1);
    reflexivity.
Qed.

Lemma options_onFailure now cb : options (onFailure now cb) = options cb.
Proof.
  unfold onFailure. simpl.
  destruct (CircuitState_eqb (state (stats cb)) HALF_OPEN); [reflexivity|].
  destruct (failureThreshold (options cb) <=? failures (stats cb) + 1);
    reflexivity.
Qed.

(** What one [execute] leaves of the breaker, in one equation. *)
Lemma after_execute {T : Type} now (fn : Operation T) cb :
  after (execute now fn cb) =
    if Nat.eqb (invocations (execute now fn cb)) 0 then cb
    else if fails fn then onFailure (fst (first fn)) (entered cb)
         else onSuccess (entered cb).
Proof.
  unfold execute, entered.
  destruct (CircuitState_eqb (state (stats cb)) OPEN);
    [destruct (shouldAttemptReset now cb)|]; simpl; try reflexivity;
    apply BreakerSpec.after_attempt.
Qed.

Lemma onSuccess_in_range cb :
  1 <= failureThreshold (options cb) ->
  counters_in_range cb -> counters_in_range (onSuccess cb).
Proof.
  destruct cb as [[ft st tmo rt] [f s l stt]].
  unfold counters_in_range, onSuccess; simpl. intros Hft (Hf & Hs & Hc & Ho).
  destruct stt; simpl.
  - destruct (Hc eq_refl). repeat split; try lia; congruence.
  - repeat split; try lia; try congruence; intros; apply Ho; congruence.
  - destruct (Z.leb_spec st (s + 1)); simpl.
    + repeat split; try lia; congruence.
    + repeat split; try lia; try congruence. intros _. apply Ho. congruence.
Qed.

Lemma onFailure_in_range now cb :
  counters_in_range cb -> counters_in_range (onFailure now cb).
Proof.
  destruct cb as [[ft st tmo rt] [f s l stt]].
  unfold counters_in_range, onFailure; simpl. intros (Hf & Hs & Hc & Ho).
  destruct stt; simpl.
  - destruct (Hc eq_refl). destruct (Z.leb_spec ft (f + 1)); simpl;
      repeat split; try lia; congruence.
  - destruct (Z.leb_spec ft (f + 1)); simpl;
      repeat split; try lia; congruence.
  - repeat split; try lia; congruence.
Qed.

Lemma entered_in_range cb :
  counters_in_range cb -> counters_in_range (entered cb).
Proof.
  destruct cb as [[ft st tmo rt] [f s l stt]].
  unfold counters_in_range, entered; simpl. intros (Hf & Hs & Hc & Ho).
  destruct stt; simpl; intuition (try lia; try congruence).
Qed.

Lemma act_in_range {T : Type} (a : Action T) cb :
  1 <= failureThreshold (options cb) ->
  counters_in_range cb ->
  options (act cb a) = options cb /\ counters_in_range (act cb a).
Proof.
  intros Hft Hin. destruct a as [now fn|now|]; simpl.
  - rewrite after_execute.
    destruct (Nat.eqb (invocations (execute now fn cb)) 0); [auto|].
    destruct (fails fn).
    + rewrite options_onFailure, BreakerSpec.options_entered.
      split; [reflexivity|]. apply onFailure_in_range, entered_in_range, Hin.
    + rewrite options_onSuccess, BreakerSpec.options_entered.
      split; [reflexivity|].
      apply onSuccess_in_range;
        [rewrite BreakerSpec.options_entered; exact Hft
        |apply entered_in_range, Hin].
  - split; [reflexivity|].
    destruct Hin as (Hf & Hs & _ & _).
    unfold counters_in_range, forceOpen. simpl.
    repeat split; try lia; congruence.
  - split; [reflexivity|].
    destruct Hin as (Hf & Hs & _ & _).
    unfold counters_in_range, forceClose, reset. simpl.
    repeat split; try lia; congruence.
Qed.

Lemma run_actions_in_range {T : Type} (actions : list (Action T)) :
  forall cb,
    1 <= failureThreshold (options cb) ->
    counters_in_range cb ->
    options (run_actions actions cb) = options cb /\
    counters_in_range (run_actions actions cb).
Proof.
  induction actions as [|a actions IH]; intros cb Hft Hin; [simpl; auto|].
  destruct (act_in_range a cb Hft Hin) as [Ho Hin'].
  unfold run_actions in *. simpl.
  destruct (IH (act cb a)) as [Ho' Hin'']; [rewrite Ho; exact Hft|exact Hin'|].
  rewrite Ho', Ho. auto.
Qed.

(** X10.  Whatever is done to a breaker built with thresholds of at least
    1, in any order (calls that succeed, fail or time out, [forceOpen],
    [forceClose]), its options never change, [failures] and [successes]
    never go negative, [successes] stays below [successThreshold], a
    CLOSED breaker has [successes] 0 and [failures] below
    [failureThreshold], and a breaker that is not CLOSED has a
    [lastFailureTime]. *)
Theorem counters_stay_in_range :
  forall (T : Type) (o : PartialOptions) (actions : list (Action T)),
    1 <= failureThreshold (options (constructor o)) ->
    1 <= successThreshold (options (constructor o)) ->
    options (run_actions actions (constructor o)) = options (constructor o) /\
    counters_in_range (run_actions actions (constructor o)).
Proof.
  intros T o actions Hft Hst. apply run_actions_in_range; [exact Hft|].
  unfold counters_in_range. simpl in *.
  repeat split; try lia; congruence.
Qed.

(** X10 on the breaker of the unit tests, forced open while it is probing. *)
Lemma counters_stay_in_range_witness :
  counters_in_range
    (run_actions [Execute 0 (Samples.failAt 0); Execute 10 (Samples.failAt 10);
                  Execute 20 (Samples.hangAt 20);
                  Execute 6030 (Samples.succeedAt 6030);
                  ForceOpen 6100; Execute 12000 (Samples.succeedAt 12000)]
       (constructor Samples.testOptions)).
Proof.
  apply (counters_stay_in_range string Samples.testOptions); simpl; lia.
Defined.

(** *** The OPEN row on a breaker in use *)

(** The stamp of a breaker in use is never 0, and there is one whenever the
    breaker is not CLOSED. *)
Lemma act_stamp {T : Type} (a : Action T) cb :
  clock_nonzero a ->
  lastFailureTime (stats cb) <> Some 0 /\
  (state (stats cb) <> CLOSED -> lastFailureTime (stats cb) <> None) ->
  lastFailureTime (stats (act cb a)) <> Some 0 /\
  (state (stats (act cb a)) <> CLOSED ->
   lastFailureTime (stats (act cb a)) <> None).
Proof.
  intros Ha [Hz Hs]. destruct a as [now fn|now|]; simpl in *.
  - rewrite after_execute.
    destruct (Nat.eqb (invocations (execute now fn cb)) 0); [auto|].
    destruct Ha as [_ Hev].
    destruct cb as [[ft st tmo rt] [f s l stt]].
    destruct (fails fn); unfold onFailure, onSuccess, entered; simpl in *.
    + destruct stt; simpl;
        try (destruct (Z.leb_spec ft (f + 1)); simpl);
        split; congruence.
    + destruct stt; simpl;
        try (destruct (Z.leb_spec st (s + 1)); simpl);
        split; try congruence; intros _; apply Hs; congruence.
  - split; congruence.
  - split; congruence.
Qed.

Lemma run_actions_stamp {T : Type} (actions : list (Action T)) : forall cb,
  Forall clock_nonzero actions ->
  lastFailureTime (stats cb) <> Some 0 /\
  (state (stats cb) <> CLOSED -> lastFailureTime (stats cb) <> None) ->
  lastFailureTime (stats (run_actions actions cb)) <> Some 0 /\
  (state (stats (run_actions actions cb)) <> CLOSED ->
   lastFailureTime (stats (run_actions actions cb)) <> None).
Proof.
  induction actions as [|a actions IH]; intros cb Hall Hcb; [exact Hcb|].
  inversion Hall as [|? ? Ha Hrest]; subst.
  unfold run_actions in *. simpl. apply IH; [exact Hrest|].
  apply act_stamp; assumption.
Qed.

(** C2.  Take a breaker as the constructor builds it, after any run of
    calls, [forceOpen]s and [forceClose]s during which the clock never read
    0.  If its state is OPEN, it has a [lastFailureTime], and: while less
    than [resetTimeout] has passed since, every [execute] fails with the
    breaker-open error, which differs from the timeout error, and the
    operation is not invoked; once at least [resetTimeout] has passed,
    [execute] sets the state to HALF_OPEN first and then invokes the
    operation once on that breaker, so that the outcome of this very call
    is booked as the HALF_OPEN probe. *)
Theorem open_row :
  forall (T : Type) (o : PartialOptions) (actions : list (Action T))
         (now : Z) (fn : Operation T),
    Forall clock_nonzero actions ->
    state (stats (run_actions actions (constructor o))) = OPEN ->
    exists t : Z,
      lastFailureTime (stats (run_actions actions (constructor o))) = Some t /\
      (now - t < resetTimeout (options (run_actions actions (constructor o))) ->
       result (execute now fn (run_actions actions (constructor o))) =
         Some (Rejected openError) /\
       invocations (execute now fn (run_actions actions (constructor o))) =
         0%nat /\
       openError <> timeoutError) /\
      (resetTimeout (options (run_actions actions (constructor o))) <= now - t ->
       invocations (execute now fn (run_actions actions (constructor o))) =
         1%nat /\
       state (stats (set_state HALF_OPEN (run_actions actions (constructor o)))) =
         HALF_OPEN /\
       execute now fn (run_actions actions (constructor o)) =
         ran (attempt fn (set_state HALF_OPEN
                            (run_actions actions (constructor o)))) /\
       after (execute now fn (run_actions actions (constructor o))) =
         if fails fn
         then onFailure (fst (first fn))
                (set_state HALF_OPEN (run_actions actions (constructor o)))
         else onSuccess
                (set_state HALF_OPEN (run_actions actions (constructor o)))).
Proof.
  intros T o actions now fn Hclock Ho.
  destruct (run_actions_stamp actions (constructor o) Hclock) as [Hz Hs];
    [simpl; split; congruence|].
  destruct (lastFailureTime (stats (run_actions actions (constructor o))))
    as [t|] eqn:Ht; [|exfalso; apply Hs; congruence].
  exists t. split; [reflexivity|].
  destruct (BreakerSpec.open_row_stamped T now fn
              (run_actions actions (constructor o)) t Ho Ht) as [Hrej Hprobe].
  split; [|exact Hprobe].
  apply Hrej. congruence.
Qed.

(** C2 at the breaker of the unit tests, opened by three failures of which
    the last is stamped 22: a call at 2000 is turned away unseen by the
    operation, a call at 5100 is the probe. *)
Lemma open_row_witness :
  (result (execute 2000 (Samples.succeedAt 2000)
             (run_actions [Execute 1 (Samples.failAt 1);
                           Execute 10 (Samples.failAt 10);
                           Execute 20 (Samples.failAt 20)]
                (constructor Samples.testOptions))) =
     Some (Rejected openError) /\
   invocations (execute 2000 (Samples.succeedAt 2000)
                  (run_actions [Execute 1 (Samples.failAt 1);
                                Execute 10 (Samples.failAt 10);
                                Execute 20 (Samples.failAt 20)]
                     (constructor Samples.testOptions))) = 0%nat) /\
  invocations (execute 5100 (Samples.succeedAt 5100)
                 (run_actions [Execute 1 (Samples.failAt 1);
                               Execute 10 (Samples.failAt 10);
                               Execute 20 (Samples.failAt 20)]
                    (constructor Samples.testOptions))) = 1%nat.
Proof.
  assert (Hclock : Forall (@clock_nonzero string)
                     [Execute 1 (Samples.failAt 1);
                      Execute 10 (Samples.failAt 10);
                      Execute 20 (Samples.failAt 20)])
    by (constructor; [split; discriminate|];
        constructor; [split; discriminate|];
        constructor; [split; discriminate|]; constructor).
  split.
  - destruct (open_row string Samples.testOptions _ 2000
                (Samples.succeedAt 2000) Hclock eq_refl)
      as (t & Ht & Hrej & _).
    vm_compute in Ht. inversion Ht; subst t.
    destruct Hrej as (H1 & H2 & _); [vm_compute; reflexivity|].
    split; assumption.
  - destruct (open_row string Samples.testOptions _ 5100
                (Samples.succeedAt 5100) Hclock eq_refl)
      as (t & Ht & _ & Hprobe).
    vm_compute in Ht. inversion Ht; subst t.
    apply Hprobe. vm_compute. discriminate.
Defined.

(** *** Manual overrides *)

(** X11.  [forceOpen] at a non-zero clock reading [t] starts a normal
    cooldown from any state: until [resetTimeout] has passed since [t]
    every [execute] is turned away without invoking the operation and
    without changing the breaker, and the first one after that is let
    through.  It keeps both counters.  [forceClose], also right after
    [forceOpen], gives a CLOSED breaker with zeroed counters and no
    [lastFailureTime], whose next [execute] invokes the operation. *)
Theorem manual_overrides :
  forall (T : Type) (cb : CircuitBreaker) (t : Z),
    (forall (now : Z) (fn : Operation T),
       t <> 0 -> now - t < resetTimeout (options cb) ->
       execute now fn (forceOpen t cb) =
         {| result := Some (Rejected openError); after := forceOpen t cb;
            invocations := 0; raceAfter := None |}) /\
    (forall (now : Z) (fn : Operation T),
       resetTimeout (options cb) <= now - t ->
       invocations (execute now fn (forceOpen t cb)) = 1%nat) /\
    failures (stats (forceOpen t cb)) = failures (stats cb) /\
    successes (stats (forceOpen t cb)) = successes (stats cb) /\
    stats (forceClose (forceOpen t cb)) =
      {| failures := 0; successes := 0; lastFailureTime := None;
         state := CLOSED |} /\
    stats (forceClose cb) =
      {| failures := 0; successes := 0; lastFailureTime := None;
         state := CLOSED |} /\
    (forall (now : Z) (fn : Operation T),
       invocations (execute now fn (forceClose cb)) = 1%nat).
Proof.
  intros T cb t. split; [|split; [|repeat split]].
  - intros now fn Hnz Hlt. apply BreakerSpec.execute_open_rejected; [reflexivity|].
    rewrite (BreakerSpec.shouldAttemptReset_recorded now (forceOpen t cb) t)
      by (reflexivity || assumption).
    simpl. apply Z.leb_gt, Hlt.
  - intros now fn Hle.
    rewrite (BreakerSpec.execute_open_probe now fn (forceOpen t cb));
      [reflexivity | reflexivity |].
    apply (BreakerSpec.shouldAttemptReset_elapsed now (forceOpen t cb) t);
      [reflexivity | exact Hle].
Qed.

(** X11 on the breaker of the unit tests, forced open at 1000 while it
    probes with one success counted. *)
Lemma manual_overrides_witness :
  invocations (execute 5999 (Samples.succeedAt 5999)
                 (forceOpen 1000 (Samples.halfOpen 1))) = 0%nat /\
  invocations (execute 6000 (Samples.succeedAt 6000)
                 (forceOpen 1000 (Samples.halfOpen 1))) = 1%nat.
Proof.
  destruct (manual_overrides string (Samples.halfOpen 1) 1000) as (H1 & H2 & _).
  split.
  - rewrite (H1 5999 (Samples.succeedAt 5999)); [reflexivity | discriminate | reflexivity].
  - apply H2. simpl. lia.
Defined.

(** *** Cooldown and recovery *)

(** X12.  Recovery.  An OPEN breaker whose cooldown has run out closes
    after exactly the successes still missing to [successThreshold]: if the
    first call comes at least [resetTimeout] after [lastFailureTime] and it
    and the calls after it all succeed, and their number brings
    [successes] to the threshold, the run ends in a CLOSED breaker with
    zeroed counters and no [lastFailureTime]. *)
Theorem recovery :
  forall (T : Type) (cb : CircuitBreaker) (t now : Z) (fn : Operation T)
         (calls : list (Z * Operation T)),
    state (stats cb) = OPEN ->
    lastFailureTime (stats cb) = Some t ->
    resetTimeout (options cb) <= now - t ->
    Forall (fun c => succeeds (snd c) = true) ((now, fn) :: calls) ->
    successes (stats cb) + Z.of_nat (length ((now, fn) :: calls)) =
      successThreshold (options cb) ->
    run_calls ((now, fn) :: calls) cb = reset cb.
Proof.
  intros T cb t now fn calls Ho Ht Hle Hall Hlen.
  assert (Hsame : run_calls ((now, fn) :: calls) cb =
                  run_calls ((now, fn) :: calls) (set_state HALF_OPEN cb)).
  { rewrite !BreakerSpec.run_calls_cons.
    rewrite (BreakerSpec.execute_open_probe now fn cb Ho
               (BreakerSpec.shouldAttemptReset_elapsed now cb t Ht Hle)).
    rewrite (BreakerSpec.execute_half_open now fn (set_state HALF_OPEN cb))
      by reflexivity.
    reflexivity. }
  rewrite Hsame.
  rewrite (BreakerSpec.half_open_close ((now, fn) :: calls)
             (set_state HALF_OPEN cb)); try assumption; try reflexivity.
  discriminate.
Qed.

(** X12 on the breaker of the unit tests, forced open at 1000: a success
    at 6100 and one at 6200 close it. *)
Lemma recovery_witness :
  run_calls [(6100, Samples.succeedAt 6100); (6200, Samples.succeedAt 6200)]
    (Samples.openedAt 1000) = reset (Samples.openedAt 1000).
Proof.
  apply (recovery string (Samples.openedAt 1000) 1000 6100
           (Samples.succeedAt 6100) [(6200, Samples.succeedAt 6200)]);
    try reflexivity.
  - simpl. lia.
  - repeat constructor.
Defined.

(** X13.  A failed probe starts the cooldown afresh.  If the call that
    moves an OPEN breaker to HALF_OPEN fails at a non-zero clock reading
    [t'], the breaker is OPEN again with [successes] 0 and
    [lastFailureTime = t'], and every call made less than [resetTimeout]
    after [t'] is turned away without invoking the operation, although
    the first cooldown has long run out. *)
Theorem failed_probe_restarts_cooldown :
  forall (T : Type) (cb : CircuitBreaker) (t now now' : Z)
         (fn fn' : Operation T),
    state (stats cb) = OPEN ->
    lastFailureTime (stats cb) = Some t ->
    resetTimeout (options cb) <= now - t ->
    fails fn = true ->
    fst (first fn) <> 0 ->
    now' - fst (first fn) < resetTimeout (options cb) ->
    stats (after (execute now fn cb)) =
      {| failures := failures (stats cb) + 1; successes := 0;
         lastFailureTime := Some (fst (first fn)); state := OPEN |} /\
    invocations (execute now' fn' (after (execute now fn cb))) = 0%nat /\
    result (execute now' fn' (after (execute now fn cb))) =
      Some (Rejected openError).
Proof.
  intros T cb t now now' fn fn' Ho Ht Hle Hf Hnz Hlt.
  assert (Hafter : after (execute now fn cb) =
                   onFailure (fst (first fn)) (set_state HALF_OPEN cb)).
  { rewrite (BreakerSpec.execute_open_probe now fn cb Ho
               (BreakerSpec.shouldAttemptReset_elapsed now cb t Ht Hle)).
    simpl. apply BreakerSpec.attempt_fails, Hf. }
  assert (Hstats : stats (after (execute now fn cb)) =
            {| failures := failures (stats cb) + 1; successes := 0;
               lastFailureTime := Some (fst (first fn)); state := OPEN |})
    by (rewrite Hafter, BreakerSpec.onFailure_half_open by reflexivity;
        reflexivity).
  split; [exact Hstats|].
  rewrite (BreakerSpec.execute_open_rejected now' fn' (after (execute now fn cb))).
  - split; reflexivity.
  - rewrite Hstats. reflexivity.
  - rewrite (BreakerSpec.shouldAttemptReset_recorded now'
               (after (execute now fn cb)) (fst (first fn)));
      [| rewrite Hstats; reflexivity | exact Hnz].
    rewrite Hafter, options_onFailure. simpl. apply Z.leb_gt, Hlt.
Qed.

(** X13 on the breaker of the unit tests, forced open at 1000: the probe
    at 6100 fails at 6102, and a call at 11000 is still turned away. *)
Lemma failed_probe_restarts_cooldown_witness :
  invocations
    (execute 11000 (Samples.succeedAt 11000)
       (after (execute 6100 (Samples.failAt 6100) (Samples.openedAt 1000)))) =
    0%nat.
Proof.
  apply (failed_probe_restarts_cooldown string (Samples.openedAt 1000) 1000
           6100 11000 (Samples.failAt 6100) (Samples.succeedAt 11000));
    try reflexivity.
  - simpl. lia.
  - discriminate.
Defined.

(** *** Every outcome is booked *)

(** X14.  Of a call that was let through, in any state: a failure adds
    exactly one to [failures], stamps [lastFailureTime], never leaves the
    breaker HALF_OPEN and never closes it; a success never leaves the
    breaker OPEN, a breaker that is CLOSED after a success has [failures]
    0, and a success that leaves the breaker HALF_OPEN has added one to
    [successes] and kept [lastFailureTime]. *)
Theorem outcomes_booked :
  forall (T : Type) (now : Z) (fn : Operation T) (cb : CircuitBreaker),
    invocations (execute now fn cb) = 1%nat ->
    (fails fn = true ->
     failures (stats (after (execute now fn cb))) = failures (stats cb) + 1 /\
     lastFailureTime (stats (after (execute now fn cb))) =
       Some (fst (first fn)) /\
     state (stats (after (execute now fn cb))) <> HALF_OPEN /\
     (state (stats (after (execute now fn cb))) = CLOSED ->
      state (stats cb) = CLOSED)) /\
    (succeeds fn = true ->
     state (stats (after (execute now fn cb))) <> OPEN /\
     (state (stats (after (execute now fn cb))) = CLOSED ->
      failures (stats (after (execute now fn cb))) = 0) /\
     (state (stats (after (execute now fn cb))) = HALF_OPEN ->
      lastFailureTime (stats (after (execute now fn cb))) =
        lastFailureTime (stats cb) /\
      successes (stats (after (execute now fn cb))) =
        successes (stats cb) + 1)).
Proof.
  intros T now fn cb Hi. rewrite after_execute, Hi. simpl.
  unfold succeeds. destruct (fails fn); split; intros Hf; try discriminate.
  - destruct cb as [[ft st tmo rt] [f s l stt]].
    unfold onFailure, entered. simpl.
    destruct stt; simpl;
      try (destruct (Z.leb_spec ft (f + 1)); simpl);
      repeat split; congruence.
  - destruct cb as [[ft st tmo rt] [f s l stt]].
    unfold onSuccess, entered. simpl.
    destruct stt; simpl;
      try (destruct (Z.leb_spec st (s + 1)); simpl);
      repeat split; congruence.
Qed.

(** X14 on the breaker of the unit tests: a timeout while probing, and a
    first successful probe. *)
Lemma outcomes_booked_witness :
  failures (stats (after (execute 10 (Samples.hangAt 10) (Samples.halfOpen 1)))) =
    failures (stats (Samples.halfOpen 1)) + 1 /\
  state (stats (after (execute 10 (Samples.succeedAt 10) (Samples.halfOpen 0)))) <>
    OPEN.
Proof.
  split.
  - apply (outcomes_booked string 10 (Samples.hangAt 10) (Samples.halfOpen 1));
      reflexivity.
  - apply (outcomes_booked string 10 (Samples.succeedAt 10) (Samples.halfOpen 0));
      reflexivity.
Defined.

(** *** Options *)

(** X15.  The constructor takes an option that is left out or given as 0
    for missing and uses its default: 5 for [failureThreshold], 2 for
    [successThreshold], 30000 for [timeout], 60000 for [resetTimeout]; any
    other integer is used as given.  So no option of a breaker is ever 0,
    and a breaker built with [failureThreshold] 0 or none stays CLOSED
    through four consecutive failures and opens at the fifth. *)
Theorem constructor_defaults :
  forall o : PartialOptions,
    (failureThreshold (options (constructor o)) <> 0 /\
     successThreshold (options (constructor o)) <> 0 /\
     timeout (options (constructor o)) <> 0 /\
     resetTimeout (options (constructor o)) <> 0) /\
    (forall v : Z,
       v <> 0 ->
       (p_failureThreshold o = Some v ->
        failureThreshold (options (constructor o)) = v) /\
       (p_successThreshold o = Some v ->
        successThreshold (options (constructor o)) = v) /\
       (p_timeout o = Some v -> timeout (options (constructor o)) = v) /\
       (p_resetTimeout o = Some v ->
        resetTimeout (options (constructor o)) = v)) /\
    ((p_failureThreshold o = None \/ p_failureThreshold o = Some 0 ->
      failureThreshold (options (constructor o)) = 5) /\
     (p_successThreshold o = None \/ p_successThreshold o = Some 0 ->
      successThreshold (options (constructor o)) = 2) /\
     (p_timeout o = None \/ p_timeout o = Some 0 ->
      timeout (options (constructor o)) = 30000) /\
     (p_resetTimeout o = None \/ p_resetTimeout o = Some 0 ->
      resetTimeout (options (constructor o)) = 60000)) /\
    (forall (T : Type) (calls : list (Z * Operation T)),
       p_failureThreshold o = None \/ p_failureThreshold o = Some 0 ->
       Forall (fun c => fails (snd c) = true) calls ->
       ((length calls <= 4)%nat ->
        state (stats (run_calls calls (constructor o))) = CLOSED) /\
       (length calls = 5%nat ->
        state (stats (run_calls calls (constructor o))) = OPEN)).
Proof.
  intros o. split; [|split; [|split]].
  - simpl. repeat split; apply BreakerSpec.or_default_nonzero; lia.
  - intros v Hv. simpl. unfold or_default.
    repeat split; intros ->; destruct (Z.eqb_spec v 0); congruence.
  - simpl. repeat split; intros [-> | ->]; reflexivity.
  - intros T calls Hdef Hall.
    assert (Hft : failureThreshold (options (constructor o)) = 5)
      by (simpl; destruct Hdef as [-> | ->]; reflexivity).
    split; intros Hlen.
    + apply BreakerSpec.closed_streak; [reflexivity | exact Hall |].
      rewrite Hft. simpl. lia.
    + apply BreakerSpec.closed_trip; [reflexivity | exact Hall | |].
      * intros ->. discriminate.
      * rewrite Hft, Hlen. reflexivity.
Qed.

(** X15 on breakers configured with a timeout of 0 and with a failure
    threshold of 0. *)
Lemma constructor_defaults_witness :
  failureThreshold
    (options (constructor {| p_failureThreshold := Some 7;
                             p_successThreshold := None;
                             p_timeout := Some 0;
                             p_resetTimeout := None |})) = 7 /\
  timeout
    (options (constructor {| p_failureThreshold := Some 7;
                             p_successThreshold := None;
                             p_timeout := Some 0;
                             p_resetTimeout := None |})) = 30000 /\
  state (stats (run_calls
                  [(0, Samples.failAt 0); (1, Samples.failAt 1)]
                  (constructor {| p_failureThreshold := Some 0;
                                  p_successThreshold := None;
                                  p_timeout := None;
                                  p_resetTimeout := None |}))) = CLOSED.
Proof.
  destruct (constructor_defaults
              {| p_failureThreshold := Some 7; p_successThreshold := None;
                 p_timeout := Some 0; p_resetTimeout := None |})
    as (_ & Hgiven & (_ & _ & Htimeout & _) & _).
  destruct (constructor_defaults
              {| p_failureThreshold := Some 0; p_successThreshold := None;
                 p_timeout := None; p_resetTimeout := None |})
    as (_ & _ & _ & Hrun).
  split; [|split].
  - apply (Hgiven 7); [discriminate | reflexivity].
  - apply Htimeout. right. reflexivity.
  - apply (Hrun string [(0, Samples.failAt 0); (1, Samples.failAt 1)]);
      [right; reflexivity | repeat constructor | simpl; lia].
Defined.

End BreakerMore.

(** ** Properties of the cache keys *)

Module KeysSpec.
Import Stdlib.Strings.Ascii.
Import Keys.

Lemma has_colon_head c rest :
  has_colon (String c rest) = false -> c <> ":"%char /\ has_colon rest = false.
Proof.
  simpl. destruct (Ascii.eqb_spec c ":"%char); [discriminate|auto].
Qed.

(** A period without a colon ends at the first colon of the key. *)
Lemma period_start_unique (p1 : string) :
  forall (p2 s1 s2 : string),
    has_colon p1 = false -> has_colon p2 = false ->
    p1 +:+ ":" +:+ s1 = p2 +:+ ":" +:+ s2 ->
    p1 = p2 /\ s1 = s2.
Proof.
  induction p1 as [|c1 p1 IH]; intros [|c2 p2] s1 s2 H1 H2 Heq; simpl in Heq.
  - inversion Heq. auto.
  - inversion Heq; subst. apply has_colon_head in H2. destruct H2; congruence.
  - inversion Heq; subst. apply has_colon_head in H1. destruct H1; congruence.
  - inversion Heq; subst.
    apply has_colon_head in H1. apply has_colon_head in H2.
    destruct (IH p2 s1 s2) as [-> ->]; tauto.
Qed.

(** X16.  The builders of [CACHE_KEYS] never give one key to two
    subjects: keys of different builders differ, and a builder gives equal
    keys only for equal arguments, provided the period of a KPI summary
    holds no colon. *)
Theorem key_of_injective :
  forall a b : Subject,
    plain_period a -> plain_period b ->
    key_of a = key_of b -> a = b.
Proof.
  intros a b Ha Hb Heq.
  destruct a, b;
    cbv [key_of DASHBOARD CAMPAIGNS CAMPAIGN METRICS FORECASTS ANALYTICS
         KPI_SUMMARY String.append] in Heq;
    try discriminate Heq;
    try (inversion Heq; reflexivity).
  inversion Heq as [Hrest].
  destruct (period_start_unique period period0 start start0 Ha Hb Hrest)
    as [-> ->].
  reflexivity.
Qed.

(** X16 on a page of campaigns and the campaign of that name. *)
Lemma key_of_injective_witness :
  key_of (Campaigns "1") <> key_of (Campaign "s:1") /\
  key_of (KpiSummary "monthly" "2024-01") <> key_of (KpiSummary "monthly" "2024-02").
Proof.
  split; intros Heq.
  - apply (key_of_injective (Campaigns "1") (Campaign "s:1") I I) in Heq.
    discriminate Heq.
  - apply (key_of_injective (KpiSummary "monthly" "2024-01")
             (KpiSummary "monthly" "2024-02") eq_refl eq_refl) in Heq.
    discriminate Heq.
Defined.

(** Without the proviso two KPI summaries can share a key. *)
Lemma kpi_summary_collision :
  KPI_SUMMARY "a:b" "c" = KPI_SUMMARY "a" "b:c".
Proof. reflexivity. Qed.

End KeysSpec.
